(** * ern-navigation: the navigation [Component]

    A shallow embedding of [src/components/navigation-component.js]:
    the button-id codec, the navigation-bar localizer, the button-press
    dispatcher, the registered route of a screen class and the validation
    block of the internal navigation calls.

    - Strings are sequences of code units; every string operation the
      component uses ([length], [substring], [lastIndexOf], template
      literals) works code unit by code unit, so [string] stands for
      them.
    - Objects live in a store: a list of objects, a reference being an
      index into it and an allocation an addition at its end.  A plain
      object is a finite map from property names to values (the order of
      its properties is not observed by the component), an array a list
      of values.
    - A method is a computation over a state that returns a value or
      throws: over the store for the static helpers that build bars, over
      the whole world (store, classes, instances, listeners, requests
      sent, console, handler calls) for the others.  The deferred outcome
      of a request is not looked at; [componentWillUpdate], which only
      re-parses the props, is left out.
    - Part I holds the model, Part II the properties. *)

From stdpp Require Import gmap strings list fin_maps pretty.
From Stdlib Require Import Ascii ZArith Lia.

Set Warnings "-register-all".

(** * Part I: the model *)

(** ** The string primitives of the host language *)

Module JS.

(** [String.prototype.lastIndexOf] with a one-character needle: the
    greatest index holding [c], or [-1]. *)
Fixpoint lastIndexOf (c : ascii) (s : string) : Z :=
  match s with
  | EmptyString => (-1)%Z
  | String a rest =>
      let later := lastIndexOf c rest in
      if (0 <=? later)%Z then (later + 1)%Z
      else if Ascii.eqb a c then 0%Z else (-1)%Z
  end.

(** An index argument is clamped to [0 .. length]. *)
Definition clamp (s : string) (i : Z) : nat :=
  Z.to_nat (Z.min (Z.max i 0) (Z.of_nat (String.length s))).

(** [s.substring(start, end)]: both ends are clamped, and swapped when
    out of order. *)
Definition substring (s : string) (start end_ : Z) : string :=
  let a := clamp s start in
  let b := clamp s end_ in
  String.substring (Nat.min a b) (Nat.max a b - Nat.min a b) s.

(** [s.substring(start)]: up to the end of the string. *)
Definition substring_from (s : string) (start : Z) : string :=
  substring s start (Z.of_nat (String.length s)).

End JS.

(** ** The button-id codec *)

(** The delimiter between a route and a local button id. *)
Definition delimiter : ascii := "."%char.

(** The qualified id [`${routeName}.${id}`] of lines 234 and 242, once
    both parts are strings. *)
Definition encode (routeName id : string) : string :=
  routeName +:+ "." +:+ id.

(** Lines 188-189: the route a qualified id belongs to, everything before
    its last delimiter. *)
Definition buttonRoute (buttonId : string) : string :=
  let lastDot := JS.lastIndexOf delimiter buttonId in
  if (-1 <? lastDot)%Z then JS.substring buttonId 0 lastDot else "".

(** Lines 187-191, [this.getRegisteredRoute()] being [route]. *)
Definition _shouldDispatchButtonPressEvent (route buttonId : string) : bool :=
  bool_decide (buttonRoute buttonId = route).

(** Lines 177-179, [this.route] being [route]. *)
Definition _unlocalizeButtonId (route buttonId : string) : string :=
  JS.substring_from buttonId (Z.of_nat (String.length route) + 1).

(** A local id is free of the delimiter: none of its characters is one. *)
Definition no_delimiter (id : string) : Prop :=
  delimiter ∉ String.list_ascii_of_string id.

(** ** Values and the store

    The values a navigation bar is made of (typedefs of lines 44-68):
    [undefined], [null], booleans, strings and references to objects of
    the store, which are plain objects or arrays.  Numbers and functions
    do not occur in a bar description. *)

(** A store address. *)
Abbreviation loc := nat (only parsing).

Inductive value :=
  | VUndefined
  | VNull
  | VBool (b : bool)
  | VString (s : string)
  | VRef (l : loc).

Inductive object :=
  | OObject (props : gmap string value)
  | OArray (elems : list value).

(** What a call can throw: the entries of the [errors] table (lines
    70-80) and the exceptions of the host. *)
Inductive exn :=
  | invalidAppNavigator
  | noValidScreens
  | noScreenName
  | invalidScreenName (screenName : string)
  | TypeError
  | SyntaxError.

Inductive result (A : Type) :=
  | Ok (a : A)
  | Throw (e : exn).
Arguments Ok {A} a.
Arguments Throw {A} e.

(** Computations over a state [S] that return or throw. *)
Definition ST (S A : Type) : Type := S → result A * S.

#[export] Instance ST_ret S : MRet (ST S) := λ A a s, (Ok a, s).

#[export] Instance ST_bind S : MBind (ST S) := λ A B f m s,
  match m s with
  | (Ok a, s') => f a s'
  | (Throw e, s') => (Throw e, s')
  end.

Definition throw {S A} (e : exn) : ST S A := λ s, (Throw e, s).

Definition reading {S A} (f : S → A) : ST S A := λ s, (Ok (f s), s).

Definition of_result {S A} (r : result A) : ST S A := λ s, (r, s).

(** The parts of the host the component calls and this file leaves open:
    the conversion of an object to a string inside a template literal
    ([Object.prototype.toString], [Array.prototype.join] or a
    [TypeError]; the component never mutates an object, so the answer
    depends on the identity of the object only), and the JSON codec. *)
Class Runtime := {
  ToString_object : loc → result string;
  JSON_parse : string → ST (list object) value;
  JSON_stringify : list object → value → result string;
}.

(** Truthiness, as tested by [!x], [x ? a : b] and [x || y]. *)
Definition truthy (v : value) : bool :=
  match v with
  | VUndefined | VNull => false
  | VBool b => b
  | VString s => negb (bool_decide (s = ""))
  | VRef _ => true
  end.

Definition nullish (v : value) : bool :=
  match v with
  | VUndefined | VNull => true
  | _ => false
  end.

(** The index-keyed properties of an array or of a string. *)
Definition indexed (vs : list value) : gmap string value :=
  list_to_map (imap (λ i v, (pretty i, v)) vs).

Definition chars (s : string) : list value :=
  (λ c, VString (String c EmptyString)) <$> String.list_ascii_of_string s.

(** The own enumerable properties copied by a spread [{...v}] or by a
    rest pattern: none for [undefined], [null] and booleans. *)
Definition own_props (h : list object) (v : value) : gmap string value :=
  match v with
  | VString s => indexed (chars s)
  | VRef l =>
      match h !! l with
      | Some (OObject props) => props
      | Some (OArray elems) => indexed elems
      | None => ∅
      end
  | _ => ∅
  end.

(** The property read [v.key], for the keys the component reads
    ([leftButton], [buttons], [id], [title], [overlay]), which no
    prototype defines: a [TypeError] on [undefined] and [null], the own
    property or [undefined] otherwise. *)
Definition get (v : value) (key : string) : ST (list object) value := λ h,
  if nullish v then (Throw TypeError, h)
  else (Ok (default VUndefined (own_props h v !! key)), h).

(** A fresh object of the store. *)
Definition new (o : object) : ST (list object) value := λ h,
  (Ok (VRef (length h)), h ++ [o]).

(** The elements of the receiver of [.map(...)]: only an array has a
    [map] method. *)
Definition elements (v : value) : ST (list object) (list value) := λ h,
  match v with
  | VRef l =>
      match h !! l with
      | Some (OArray elems) => (Ok elems, h)
      | _ => (Throw TypeError, h)
      end
  | _ => (Throw TypeError, h)
  end.

(** The conversion to a string done by a template literal. *)
Definition ToString `{Runtime} (v : value) : result string :=
  match v with
  | VUndefined => Ok "undefined"
  | VNull => Ok "null"
  | VBool true => Ok "true"
  | VBool false => Ok "false"
  | VString s => Ok s
  | VRef l => ToString_object l
  end.

(** [`${routeName}.${id}`] (lines 234 and 242). *)
Definition qualified `{Runtime} (routeName : string) (id : value)
  : ST (list object) value :=
  s ← of_result (ToString id); mret (VString (encode routeName s)).

(** The pattern [const {key, ...rest} = v] (lines 334-336, 398): the
    property and a fresh object holding the others. *)
Definition without (key : string) (v : value) : ST (list object) (value * value) :=
  x ← get v key;
  props ← reading (λ h, own_props h v);
  rest ← new (OObject (delete key props));
  mret (x, rest).

(** ** The navigation-bar localizer *)

(** Lines 231-236: the copy of a left button, its id qualified when it
    has one. *)
Definition localized_leftButton `{Runtime} (routeName : string) (leftButton : value)
  : ST (list object) value :=
  props ← reading (λ h, own_props h leftButton);
  id ← get leftButton "id";
  id' ← (if truthy id then qualified routeName id else mret VUndefined);
  new (OObject (<["id" := id']> props)).

(** Lines 239-243: the copy of a right button. *)
Definition localized_button `{Runtime} (routeName : string) (button : value)
  : ST (list object) value :=
  props ← reading (λ h, own_props h button);
  id ← get button "id";
  id' ← qualified routeName id;
  new (OObject (<["id" := id']> (<["location" := VString "right"]> props))).

(** Lines 224-246.  The objects are allocated innermost first. *)
Definition _localizeNavigationBar `{Runtime} (routeName : string) (navigationBar : value)
  : ST (list object) value :=
  if negb (truthy navigationBar) then new (OObject ∅)
  else
    props ← reading (λ h, own_props h navigationBar);
    leftButton ← get navigationBar "leftButton";
    leftButton' ← (if truthy leftButton
                   then localized_leftButton routeName leftButton
                   else mret VUndefined);
    buttons ← get navigationBar "buttons";
    buttons' ← (if truthy buttons
                then
                  elems ← elements buttons;
                  elems' ← mapM (localized_button routeName) elems;
                  new (OArray elems')
                else mret VUndefined);
    new (OObject (<["buttons" := buttons']> (<["leftButton" := leftButton']> props))).

(** ** Screen classes and the world around them *)

(** The handle of a subscription to the button-press events. *)
Abbreviation handle := nat (only parsing).

(** Modelled from the spec: the App Navigator collaborator, whose class
    is imported at line 3, exposes [screens], a mapping from screen names
    to screen classes (section 6).  The static [appNavigator] (line 83)
    holds one, or nothing, or something else; these are the cases lines
    374-385 tell apart. *)
Inductive navigator :=
  | Unset
      (* [undefined], as at line 83, or another falsy value *)
  | Foreign
      (* a truthy value that is not an instance of [AppNavigator] *)
  | AppNavigator (screens : option (gmap string string)).
      (* an instance; [screens] maps a screen name to the name of a
         screen class, and is [None] when falsy *)

(** The functions [onNavButtonPress] can be bound to. *)
Inductive handler :=
  | OwnMethod      (* [this.onNavButtonPress], defined by the screen *)
  | StaticMethod   (* a static [onNavButtonPress] of the screen *)
  | BaseStatic.    (* [Component.onNavButtonPress], lines 299-306 *)

(** The static side of a screen class: the fields of lines 83-91, the
    hook [getDynamicTitle] (line 289, code of the screen, which reads the
    store and the payload), whether the screen defines an instance method
    [onNavButtonPress], and its static [onNavButtonPress]: the inherited
    one of line 299, one of its own, or none when overridden by a falsy
    value.  The field [getDynamicTitle] is the title the hook of the
    screen returns; a hook that throws or writes to the store is the
    subject of [_getNavigationBar_with]. *)
Record class := Class {
  route : string;
  appNavigator : navigator;
  headerListener : option handle;
  autoReset : bool;
  navigationOptions : value;
  getDynamicTitle : list object → value → value;
  prototype_onNavButtonPress : bool;
  static_onNavButtonPress : option handler;
}.

(** An instance of a screen class: [this.constructor] by name, and the
    properties [this.headerListener] and [this.jsonProps]. *)
Record instance := Instance {
  this_constructor : string;
  this_headerListener : option handle;
  this_jsonProps : value;
}.

(** The calls received by [EnNavigationApi.requests()]. *)
Inductive request :=
  | Update (path : string) (navigationBar : value)
  | Navigate (path : string) (overlay navigationBar : value) (jsonPayload : string)
  | NavigateTo (routeObj : value)
  | Back (path : option string)
  | Finish (jsonPayload : string).

(** A call of an [onNavButtonPress] handler. *)
Record press := Press {
  receiver : nat;
  pressed_handler : handler;
  pressed_id : string;
}.

(** The world: the store, the screen classes by name, the instances
    (an instance is known by its index), the subscribed listeners with
    the instance each is bound to, the next handle, the requests sent,
    the console and the handler calls made. *)
Record world := World {
  heap : list object;
  classes : gmap string class;
  instances : list instance;
  listeners : list (handle * nat);
  handles : nat;
  requests : list request;
  console : list (string * option string);
  presses : list press;
}.

Definition with_heap (h : list object) (w : world) : world :=
  World h (classes w) (instances w) (listeners w) (handles w) (requests w) (console w) (presses w).

Definition with_classes (cs : gmap string class) (w : world) : world :=
  World (heap w) cs (instances w) (listeners w) (handles w) (requests w) (console w) (presses w).

Definition with_instances (il : list instance) (w : world) : world :=
  World (heap w) (classes w) il (listeners w) (handles w) (requests w) (console w) (presses w).

Definition with_listeners (ls : list (handle * nat)) (n : nat) (w : world) : world :=
  World (heap w) (classes w) (instances w) ls n (requests w) (console w) (presses w).

Definition with_requests (rs : list request) (w : world) : world :=
  World (heap w) (classes w) (instances w) (listeners w) (handles w) rs (console w) (presses w).

Definition with_console (cl : list (string * option string)) (w : world) : world :=
  World (heap w) (classes w) (instances w) (listeners w) (handles w) (requests w) cl (presses w).

Definition with_presses (ps : list press) (w : world) : world :=
  World (heap w) (classes w) (instances w) (listeners w) (handles w) (requests w) (console w) ps.

Definition with_route (r : string) (c : class) : class :=
  Class r (appNavigator c) (headerListener c) (autoReset c) (navigationOptions c)
    (getDynamicTitle c) (prototype_onNavButtonPress c) (static_onNavButtonPress c).

Definition with_appNavigator (n : navigator) (c : class) : class :=
  Class (route c) n (headerListener c) (autoReset c) (navigationOptions c)
    (getDynamicTitle c) (prototype_onNavButtonPress c) (static_onNavButtonPress c).

(** A computation on the store, run in the world. *)
Definition on_heap {A} (m : ST (list object) A) : ST world A := λ w,
  let (r, h) := m (heap w) in (r, with_heap h w).

(** The statics of a class; a name that denotes no screen class cannot be
    called as one. *)
Definition the_class (c : string) : ST world class := λ w,
  match classes w !! c with
  | Some cl => (Ok cl, w)
  | None => (Throw TypeError, w)
  end.

Definition the_instance (this : nat) : ST world instance := λ w,
  match instances w !! this with
  | Some i => (Ok i, w)
  | None => (Throw TypeError, w)
  end.

Definition console_warn (message : string) (arg : option string) : ST world unit := λ w,
  (Ok tt, with_console (console w ++ [(message, arg)]) w).

(** Modelled from the spec: the host channels of [EnNavigationApi.requests()]
    (section 6); a call is recorded, its deferred outcome is not looked at. *)
Definition send (r : request) : ST world unit := λ w,
  (Ok tt, with_requests (requests w ++ [r]) w).

(** Modelled from the spec: the button-press event stream of
    [EnNavigationApi.events()] (section 6), [subscribe] returning a new
    handle for a listener bound to [this]. *)
Definition addOnNavButtonClickEventListener (this : nat) : ST world handle := λ w,
  (Ok (handles w), with_listeners (listeners w ++ [(handles w, this)]) (S (handles w)) w).

(** Modelled from the spec: [unsubscribe] of the same stream. *)
Definition removeOnNavButtonClickEventListener (hd : handle) : ST world unit := λ w,
  (Ok tt, with_listeners (filter (λ l, l.1 ≠ hd) (listeners w)) (handles w) w).

Definition put_class (c : string) (cl : class) : ST world unit := λ w,
  (Ok tt, with_classes (<[c := cl]> (classes w)) w).

Definition put_instance (this : nat) (i : instance) : ST world unit := λ w,
  (Ok tt, with_instances (<[this := i]> (instances w)) w).

(** ** The static methods of a screen class *)

(** Lines 128-138. *)
Definition setRegisteredRoute (c : string) (r : string) : ST world unit :=
  cl ← the_class c;
  if bool_decide (route cl = "") then put_class c (with_route r cl)
  else console_warn
         ("This component has already been registered as '" +:+ route cl
            +:+ "'.  Not re-registering as '" +:+ r +:+ "'.") None.

(** Lines 146-148. *)
Definition getRegisteredRoute (c : string) : ST world string :=
  cl ← the_class c; mret (route cl).

(** Lines 155-157. *)
Definition setAppNavigator (c : string) (n : navigator) : ST world unit :=
  cl ← the_class c; put_class c (with_appNavigator n cl).

(** Lines 164-166. *)
Definition getAppNavigator (c : string) : ST world navigator :=
  cl ← the_class c; mret (appNavigator cl).

(** Lines 256-263, [this] being the class [cl]. *)
Definition _getNavigationBar (cl : class) (jsonPayload : value) : ST (list object) value :=
  props ← reading (λ h, own_props h (navigationOptions cl));
  dynamic ← reading (λ h, getDynamicTitle cl h jsonPayload);
  title ← (if truthy dynamic then mret dynamic
           else if truthy (navigationOptions cl) then get (navigationOptions cl) "title"
           else mret VUndefined);
  new (OObject (<["title" := title]> props)).

(** Lines 274-279. *)
Definition _getLocalizedNavigationBar `{Runtime} (cl : class) (jsonPayload : value)
  : ST (list object) value :=
  bar ← _getNavigationBar cl jsonPayload;
  _localizeNavigationBar (route cl) bar.

(** Lines 299-306, called with [this] bound to an instance. *)
Definition onNavButtonPress (this : nat) (buttonId : string) : ST world unit :=
  i ← the_instance this;
  console_warn
    ("`onNavButtonPress(buttonId)` was not overriden in " +:+ this_constructor i
       +:+ ", but a button press event was fired.") (Some buttonId).

(** The call [handler.bind(this)(buttonId)] of line 209: the call is
    recorded; the code of a screen's own handler is not looked at, so
    the model tells which handler is called, on which instance and with
    which id, and nothing of what the handler of a screen then does. *)
Definition call (f : handler) (this : nat) (buttonId : string) : ST world unit :=
  _ ← (λ w, (Ok tt, with_presses (presses w ++ [Press this f buttonId]) w));
  match f with
  | BaseStatic => onNavButtonPress this buttonId
  | OwnMethod | StaticMethod => mret tt
  end.

(** Lines 206-207: [this.onNavButtonPress || this.constructor.onNavButtonPress]
    for an instance of the class [cl]. *)
Definition handler_of (cl : class) : option handler :=
  if prototype_onNavButtonPress cl then Some OwnMethod
  else static_onNavButtonPress cl.

(** Lines 204-212, with [this] bound to an instance (line 98). *)
Definition _handleNavButtonPress (this : nat) (buttonId : string) : ST world unit :=
  i ← the_instance this;
  cl ← the_class (this_constructor i);
  if _shouldDispatchButtonPressEvent (route cl) buttonId then
    match handler_of cl with
    | Some f => call f this (_unlocalizeButtonId (route cl) buttonId)
    | None => mret tt
    end
  else mret tt.

(** Modelled from the spec: the event stream hands a button-press event
    to every subscribed listener (sections 4.3 and 6).  Here each gets it
    once, in the order of subscription, which is one of the deliveries
    the stream may make; [deliver] is any of them. *)
Definition emit (buttonId : string) : ST world unit := λ w,
  (_ ← mapM (λ l : handle * nat, _handleNavButtonPress l.2 buttonId) (listeners w);
   mret tt) w.

(** ** The instance methods *)

(** Lines 333-346. *)
Definition updateNavigationBar `{Runtime} (this : nat) (navigationBar : value)
  : ST world unit :=
  i ← the_instance this;
  cl ← the_class (this_constructor i);
  '(overlay, localizedNavigationBar) ←
    on_heap (bar ← _localizeNavigationBar (route cl) navigationBar;
             without "overlay" bar);
  send (Update (route cl) localizedNavigationBar).

(** Lines 316-322. *)
Definition resetNavigationBar `{Runtime} (this : nat) : ST world unit :=
  i ← the_instance this;
  cl ← the_class (this_constructor i);
  bar ← on_heap (_getNavigationBar cl VUndefined);
  updateNavigationBar this bar.

(** Line 95: [props.jsonPayload ? JSON.parse(props.jsonPayload) : {}],
    [jsonPayload] being [props.jsonPayload] when it is there. *)
Definition parsed_props `{Runtime} (jsonPayload : option string)
  : ST (list object) value :=
  match jsonPayload with
  | Some s => if bool_decide (s = "") then new (OObject ∅) else JSON_parse s
  | None => new (OObject ∅)
  end.

(** Lines 93-104, for [new c(props)].  [super(props)] creates the
    instance, which has no [headerListener] of its own yet. *)
Definition constructor `{Runtime} (c : string) (jsonPayload : option string)
  : ST world nat :=
  cl ← the_class c;
  this ← (λ w, (Ok (length (instances w)),
                with_instances (instances w ++ [Instance c None VUndefined]) w));
  parsed ← on_heap (parsed_props jsonPayload);
  i ← the_instance this;
  _ ← put_instance this (Instance (this_constructor i) (this_headerListener i) parsed);
  i ← the_instance this;
  _ ← (match this_headerListener i with
       | Some _ => mret tt
       | None =>
           hd ← addOnNavButtonClickEventListener this;
           put_instance this (Instance (this_constructor i) (Some hd) (this_jsonProps i))
       end);
  _ ← (if autoReset cl then resetNavigationBar this else mret tt);
  mret this.

(** Lines 106-112. *)
Definition componentWillUnmount (this : nat) : ST world unit :=
  i ← the_instance this;
  match this_headerListener i with
  | Some hd => removeOnNavButtonClickEventListener hd
  | None => mret tt
  end.

(** Lines 357-359. *)
Definition navigate (this : nat) (routeObj : value) : ST world unit :=
  send (NavigateTo routeObj).

(** Lines 374-395, and again lines 421-442: the checks on the navigator
    and on the screen name, giving the class registered under the name. *)
Definition validated (nav : navigator) (screenName : option string) : result string :=
  match nav with
  | Unset => Throw invalidAppNavigator
  | Foreign => Throw invalidAppNavigator
  | AppNavigator None => Throw noValidScreens
  | AppNavigator (Some screens) =>
      if bool_decide (size screens < 1) then Throw noValidScreens
      else
        match screenName with
        | None => Throw noScreenName
        | Some name =>
            if bool_decide (name = "") then Throw noScreenName
            else
              match screens !! name with
              | None => Throw (invalidScreenName name)
              | Some target => Ok target
              end
        end
  end.

(** Lines 373-408. *)
Definition navigateInternal `{Runtime} (this : nat) (screenName : option string)
    (jsonPayload : value) : ST world unit :=
  i ← the_instance this;
  cl ← the_class (this_constructor i);
  target ← of_result (validated (appNavigator cl) screenName);
  nav ← the_class target;
  '(overlay, navigationBar) ←
    on_heap (bar ← _getLocalizedNavigationBar nav jsonPayload;
             without "overlay" bar);
  payload ← on_heap (if truthy jsonPayload then mret jsonPayload
                     else new (OObject ∅));
  text ← on_heap (λ h, (JSON_stringify h payload, h));
  send (Navigate (route nav) overlay navigationBar text).

(** Lines 420-449. *)
Definition backTo (this : nat) (screenName : option string) : ST world unit :=
  i ← the_instance this;
  cl ← the_class (this_constructor i);
  target ← of_result (validated (appNavigator cl) screenName);
  nav ← the_class target;
  send (Back (Some (route nav))).

(** Lines 459-461. *)
Definition back (this : nat) : ST world unit :=
  send (Back None).

(** Lines 473-475. *)
Definition finish `{Runtime} (this : nat) (payload : value) : ST world unit :=
  payload' ← on_heap (if truthy payload then mret payload else new (OObject ∅));
  text ← on_heap (λ h, (JSON_stringify h payload', h));
  send (Finish text).

(** ** Notions the statements use *)

(** The property [key] of [v] in the store, [undefined] when it has
    none. *)
Definition field (h : list object) (v : value) (key : string) : value :=
  default VUndefined (own_props h v !! key).

Definition is_Ok {A} (r : result A) : Prop :=
  match r with
  | Ok _ => True
  | Throw _ => False
  end.

(** A bar whose localization does not throw: the id of its left button,
    when it has one, converts to a string; its buttons, when it has
    some, are an array of values with properties whose ids convert. *)
Definition leftButton_ok `{Runtime} (h : list object) (leftButton : value) : Prop :=
  truthy leftButton = true →
  truthy (field h leftButton "id") = true →
  is_Ok (ToString (field h leftButton "id")).

Definition button_ok `{Runtime} (h : list object) (button : value) : Prop :=
  nullish button = false ∧ is_Ok (ToString (field h button "id")).

Definition buttons_ok `{Runtime} (h : list object) (buttons : value) : Prop :=
  truthy buttons = true →
  ∃ l elems, buttons = VRef l ∧ h !! l = Some (OArray elems) ∧
             Forall (button_ok h) elems.

Definition bar_ok `{Runtime} (h : list object) (navigationBar : value) : Prop :=
  leftButton_ok h (field h navigationBar "leftButton") ∧
  buttons_ok h (field h navigationBar "buttons").

(** A store without dangling references. *)
Definition closed_value (h : list object) (v : value) : Prop :=
  match v with
  | VRef l => l < length h
  | _ => True
  end.

Definition closed_object (h : list object) (o : object) : Prop :=
  match o with
  | OObject props => map_Forall (λ _, closed_value h) props
  | OArray elems => Forall (closed_value h) elems
  end.

Definition closed (h : list object) : Prop := Forall (closed_object h) h.

(** What a value looks like from outside, down to a depth: the store
    addresses are forgotten. *)
Inductive tree :=
  | TUndefined
  | TNull
  | TBool (b : bool)
  | TString (s : string)
  | TObject (props : gmap string tree)
  | TArray (elems : list tree)
  | TDeeper.

Fixpoint snapshot (depth : nat) (h : list object) (v : value) : tree :=
  match v with
  | VUndefined => TUndefined
  | VNull => TNull
  | VBool b => TBool b
  | VString s => TString s
  | VRef l =>
      match depth with
      | 0 => TDeeper
      | S d =>
          match h !! l with
          | Some (OObject props) => TObject (snapshot d h <$> props)
          | Some (OArray elems) => TArray (snapshot d h <$> elems)
          | None => TDeeper
          end
      end
  end.

(** The bar of an update as the specification words it (section 4.4):
    [overlay] is stripped, and the remainder is localized. *)
Definition updateBar_spec `{Runtime} (routeName : string) (bar : value)
  : ST (list object) value :=
  '(overlay, remainder) ← without "overlay" bar;
  _localizeNavigationBar routeName remainder.

(** The new entries of a list that has grown at its end. *)
Definition added {A} (before after : list A) : list A :=
  drop (length before) after.

(** The string a value converts to, when the conversion returns. *)
Definition as_string `{Runtime} (v : value) : string :=
  match ToString v with
  | Ok s => s
  | Throw _ => ""
  end.

(** The object a left button is copied to, the button being read in the
    store [h]: its properties, and an [id] that is qualified, or
    [undefined] when the button has no (truthy) id. *)
Definition leftButton_copy `{Runtime} (routeName : string) (h : list object)
    (leftButton : value) : object :=
  OObject (<["id" := if truthy (field h leftButton "id")
                    then VString (encode routeName (as_string (field h leftButton "id")))
                    else VUndefined]>
             (own_props h leftButton)).

(** The object a right button is copied to. *)
Definition button_copy `{Runtime} (routeName : string) (h : list object)
    (button : value) : object :=
  OObject (<["id" := VString (encode routeName (as_string (field h button "id")))]>
             (<["location" := VString "right"]> (own_props h button))).

(** [leftButton'] is, in the store [h'], the localized form of the value
    [leftButton] of the store [h]. *)
Definition localizes_leftButton `{Runtime} (routeName : string) (h h' : list object)
    (leftButton leftButton' : value) : Prop :=
  if truthy leftButton
  then ∃ l, leftButton' = VRef l ∧ length h ≤ l
            ∧ h' !! l = Some (leftButton_copy routeName h leftButton)
  else leftButton' = VUndefined.

(** [buttons'] is, in the store [h'], the localized form of the value
    [buttons] of the store [h]. *)
Definition localizes_buttons `{Runtime} (routeName : string) (h h' : list object)
    (buttons buttons' : value) : Prop :=
  if truthy buttons
  then ∃ l elems l' elems',
         buttons = VRef l ∧ h !! l = Some (OArray elems)
         ∧ buttons' = VRef l' ∧ length h ≤ l' ∧ h' !! l' = Some (OArray elems')
         ∧ Forall2 (λ button button',
                      ∃ lb, button' = VRef lb ∧ length h ≤ lb
                            ∧ h' !! lb = Some (button_copy routeName h button))
                   elems elems'
  else buttons' = VUndefined.

(** A computation on the store that only allocates: the store it leaves
    is the store it found, followed by new objects. *)
Definition only_allocates {A} (m : ST (list object) A) : Prop :=
  ∀ h, ∃ fresh, (m h).2 = h ++ fresh.

(** A computation that only allocates and returns, when it returns, a
    reference to one of its new objects. *)
Definition returns_new (m : ST (list object) value) : Prop :=
  ∀ h, ∃ fresh, (m h).2 = h ++ fresh
                ∧ ∀ v, (m h).1 = Ok v →
                       ∃ l, v = VRef l ∧ length h ≤ l < length (h ++ fresh).

(** Every subscribed listener is bound to an instance of a class. *)
Definition listeners_ok (w : world) : Prop :=
  Forall (λ l : handle * nat,
            ∃ i cl, instances w !! l.2 = Some i
                    ∧ classes w !! this_constructor i = Some cl)
         (listeners w).

(** The handler call a button press gives rise to at one listener. *)
Definition dispatched (w : world) (buttonId : string) (l : handle * nat)
  : option press :=
  i ← instances w !! l.2;
  cl ← classes w !! this_constructor i;
  if _shouldDispatchButtonPressEvent (route cl) buttonId
  then f ← handler_of cl; Some (Press l.2 f (_unlocalizeButtonId (route cl) buttonId))
  else None.

(** A computation in the world that leaves the classes, the instances
    and the subscriptions as they are. *)
Definition keeps_subscriptions {A} (m : ST world A) : Prop :=
  ∀ w, classes (m w).2 = classes w ∧ instances (m w).2 = instances w
       ∧ listeners (m w).2 = listeners w ∧ handles (m w).2 = handles w.

(** The active subscriptions whose listener is bound to an instance of
    the class [c]. *)
Definition subscriptions_of (w : world) (c : string) : list (handle * nat) :=
  filter (λ l : handle * nat, this_constructor <$> instances w !! l.2 = Some c)
         (listeners w).

#[export] Instance closed_value_dec h v : Decision (closed_value h v).
Proof. destruct v; simpl; apply _. Defined.

#[export] Instance closed_object_dec h o : Decision (closed_object h o).
Proof. destruct o; simpl; apply _. Defined.

#[export] Instance closed_dec h : Decision (closed h).
Proof. unfold closed. apply _. Defined.

(** ** Sample data *)

(** A runtime for the examples: an object converts to the string of
    [Object.prototype.toString]; the JSON codec is not exercised. *)
Definition sample_runtime : Runtime := {|
  ToString_object := λ _, Ok "[object Object]";
  JSON_parse := λ _, throw SyntaxError;
  JSON_stringify := λ _ _, Ok "{}";
|}.

(** A store with the default navigation options of lines 88-91 (at 1)
    and with the bar of a checkout screen (at 5): a title, an overlay
    flag, one right button (at 2) and a left button without id (at 4). *)
Definition sample_heap : list object :=
  [ OArray [];
    OObject (list_to_map [("title", VString "Untitled"); ("buttons", VRef 0)]);
    OObject (list_to_map [("id", VString "exit"); ("title", VString "Exit")]);
    OArray [VRef 2];
    OObject (list_to_map [("title", VString "Back")]);
    OObject (list_to_map [("title", VString "Checkout"); ("overlay", VBool true);
                          ("buttons", VRef 3); ("leftButton", VRef 4)]) ].

(** The statics a screen class inherits (lines 83-91, 289 and 299). *)
Definition Component : class :=
  Class "" Unset None true (VRef 1) (λ _ _, VUndefined) false (Some BaseStatic).

(** A checkout screen, registered, with its own bar and handler. *)
Definition Checkout : class :=
  Class "checkout" Unset None true (VRef 5) (λ _ _, VUndefined) true (Some BaseStatic).

(** Two screens registered as ["A"] and ["B"], each with its handler. *)
Definition ScreenA : class :=
  Class "A" Unset None true (VRef 1) (λ _ _, VUndefined) true (Some BaseStatic).

Definition ScreenB : class :=
  Class "B" Unset None true (VRef 1) (λ _ _, VUndefined) true (Some BaseStatic).

(** A world with these classes, one instance of [Checkout], of [ScreenA]
    and of [ScreenB], the last two subscribed to the button presses. *)
Definition sample_world : world :=
  World sample_heap
    (list_to_map [("Main", Component); ("Checkout", Checkout);
                  ("ScreenA", ScreenA); ("ScreenB", ScreenB)])
    [Instance "Checkout" None VUndefined;
     Instance "ScreenA" (Some 0) VUndefined;
     Instance "ScreenB" (Some 1) VUndefined;
     Instance "Main" None VUndefined]
    [(0, 1); (1, 2)] 2 [] [] [].

(** The same world after [setAppNavigator] on the class [Main]. *)
Definition sample_world_with (n : navigator) : world :=
  with_classes (<["Main" := with_appNavigator n Component]> (classes sample_world))
    sample_world.

(** ** Notions of the further properties *)

(** The handler call a press of the local id [x] of the route [r] is
    expected to give rise to at one listener. *)
Definition expected_call (w : world) (r x : string) (l : handle * nat)
  : option press :=
  i ← instances w !! l.2;
  cl ← classes w !! this_constructor i;
  if bool_decide (route cl = r)
  then f ← handler_of cl; Some (Press l.2 f x)
  else None.

(** An App Navigator with two screens. *)
Definition sample_screens : gmap string string :=
  list_to_map [("Cart", "Checkout"); ("Home", "Main")].

Definition sample_navigator : navigator := AppNavigator (Some sample_screens).

(** Whether a value is a reference to an array of the store. *)
Definition is_array (h : list object) (v : value) : bool :=
  match v with
  | VRef l =>
      match h !! l with
      | Some (OArray _) => true
      | _ => false
      end
  | _ => false
  end.

(** The sample store with one more bar (at 6), whose buttons are a
    string instead of an array. *)
Definition sample_heap_bad : list object :=
  sample_heap
    ++ [OObject (list_to_map [("title", VString "Cart"); ("buttons", VString "exit")])].

(** The title of the bar of the class [cl] for a payload, read in the
    store [h] (lines 259-261). *)
Definition class_title (cl : class) (h : list object) (jsonPayload : value) : value :=
  if truthy (getDynamicTitle cl h jsonPayload)
  then getDynamicTitle cl h jsonPayload
  else field h (navigationOptions cl) "title".

(** [sent] is, in the store [h'], the bar of the class [cl] of the store
    [h] as a request carries it: titled [title], without [overlay], its
    left button and its buttons localized for the route of the class,
    its other properties those of the navigation options. *)
Definition is_class_bar `{Runtime} (cl : class) (title : value) (h h' : list object)
    (sent : value) : Prop :=
  field h' sent "title" = title
  ∧ own_props h' sent !! "overlay" = None
  ∧ localizes_leftButton (route cl) h h'
      (field h (navigationOptions cl) "leftButton") (field h' sent "leftButton")
  ∧ localizes_buttons (route cl) h h'
      (field h (navigationOptions cl) "buttons") (field h' sent "buttons")
  ∧ ∀ key, key ≠ "title" → key ≠ "overlay" → key ≠ "leftButton" → key ≠ "buttons" →
           own_props h' sent !! key = own_props h (navigationOptions cl) !! key.

(** A computation in the world that sends no request. *)
Definition keeps_requests {A} (m : ST world A) : Prop :=
  ∀ w, requests (m w).2 = requests w.

(** A computation in the world that sends one request when it returns
    and none when it throws. *)
Definition sends_iff_returns {A} (m : ST world A) : Prop :=
  ∀ w, match (m w).1 with
       | Ok _ => ∃ r, requests (m w).2 = requests w ++ [r]
       | Throw _ => requests (m w).2 = requests w
       end.

(** The next handle of the event stream is above every handle in use. *)
Definition handles_fresh (w : world) : Prop :=
  Forall (λ l : handle * nat, l.1 < handles w) (listeners w).

(** A computation in the world that calls no handler and writes nothing
    to the console. *)
Definition keeps_log {A} (m : ST world A) : Prop :=
  ∀ w, presses (m w).2 = presses w ∧ console (m w).2 = console w.

(** Modelled from the spec: one delivery of a button-press event by the
    event stream of [EnNavigationApi.events()], which hands the event to
    the listeners [sched] one after the other.  Section 6 promises that
    every subscribed listener is among them, at least once, and promises
    no order across classes. *)
Definition deliver (buttonId : string) (sched : list (handle * nat)) : ST world unit :=
  _ ← mapM (λ l : handle * nat, _handleNavButtonPress l.2 buttonId) sched;
  mret tt.

(** [sched] reaches every subscribed listener at least once, in any
    order, and nobody else. *)
Definition delivery_of (w : world) (sched : list (handle * nat)) : Prop :=
  ∀ l, l ∈ sched ↔ l ∈ listeners w.

(** Lines 256-263 with the call of line 260 left open: [hook] is what
    [this.getDynamicTitle(jsonPayload)] comes to for a screen, code of
    the screen that may read the store, write to it, and throw.  The
    properties of the options are spread before the call, and their
    title is read after it. *)
Definition _getNavigationBar_with (cl : class) (hook : ST (list object) value)
  : ST (list object) value :=
  props ← reading (λ h, own_props h (navigationOptions cl));
  dynamic ← hook;
  title ← (if truthy dynamic then mret dynamic
           else if truthy (navigationOptions cl) then get (navigationOptions cl) "title"
           else mret VUndefined);
  new (OObject (<["title" := title]> props)).

(** * Part II: the properties *)

(** ** Facts on the string primitives *)

Lemma append_nil_l s : "" +:+ s = s.
Proof. reflexivity. Qed.

Lemma append_cons a r s : String a r +:+ s = String a (r +:+ s).
Proof. reflexivity. Qed.

Lemma append_assoc r s t : r +:+ s +:+ t = (r +:+ s) +:+ t.
Proof.
  induction r as [|a r IH]; [done|]. by rewrite !append_cons, IH.
Qed.

Lemma length_append r s :
  String.length (r +:+ s) = String.length r + String.length s.
Proof.
  induction r as [|a r IH]; [done|]. rewrite append_cons. simpl. by rewrite IH.
Qed.

Lemma lastIndexOf_absent c s :
  c ∉ String.list_ascii_of_string s → JS.lastIndexOf c s = (-1)%Z.
Proof.
  induction s as [|a s IH]; [done|]. cbn [String.list_ascii_of_string JS.lastIndexOf].
  intros [Hne Hs]%not_elem_of_cons. rewrite (IH Hs). cbn.
  destruct (Ascii.eqb_spec a c); [congruence | done].
Qed.

Lemma lastIndexOf_cons_absent c s :
  JS.lastIndexOf c s = (-1)%Z → JS.lastIndexOf c (String c s) = 0%Z.
Proof. intros H. cbn [JS.lastIndexOf]. rewrite H. cbn. by rewrite Ascii.eqb_refl. Qed.

Lemma lastIndexOf_app c r s :
  (0 <= JS.lastIndexOf c s)%Z →
  JS.lastIndexOf c (r +:+ s)
  = (Z.of_nat (String.length r) + JS.lastIndexOf c s)%Z.
Proof.
  intros H. induction r as [|a r IH].
  - rewrite append_nil_l. cbn [String.length]. lia.
  - rewrite append_cons. cbn [String.length JS.lastIndexOf]. rewrite IH.
    destruct (Z.leb_spec 0 (Z.of_nat (String.length r) + JS.lastIndexOf c s)); lia.
Qed.

Lemma substring_all s : String.substring 0 (String.length s) s = s.
Proof. induction s as [|a s IH]; simpl; [done | by rewrite IH]. Qed.

Lemma substring_prefix r s :
  String.substring 0 (String.length r) (r +:+ s) = r.
Proof.
  induction r as [|a r IH].
  - rewrite append_nil_l. by destruct s.
  - rewrite append_cons. simpl. by rewrite IH.
Qed.

Lemma substring_suffix r s :
  String.substring (String.length r) (String.length s) (r +:+ s) = s.
Proof.
  induction r as [|a r IH].
  - rewrite append_nil_l. apply substring_all.
  - rewrite append_cons. simpl. apply IH.
Qed.

(** ** The codec round trip *)

Lemma buttonRoute_encode r x : no_delimiter x → buttonRoute (encode r x) = r.
Proof.
  intros Hx. unfold buttonRoute, encode.
  assert (Hdot : JS.lastIndexOf delimiter ("." +:+ x) = 0%Z)
    by (by apply lastIndexOf_cons_absent, lastIndexOf_absent).
  rewrite lastIndexOf_app by lia. rewrite Hdot, Z.add_0_r.
  destruct (Z.ltb_spec (-1) (Z.of_nat (String.length r))); [|lia].
  unfold JS.substring, JS.clamp. rewrite length_append.
  replace (Z.to_nat (Z.min (Z.max 0 0) _)) with 0 by lia.
  replace (Z.to_nat (Z.min (Z.max (Z.of_nat (String.length r)) 0) _))
    with (String.length r) by lia.
  rewrite Nat.min_0_l, Nat.max_0_l, Nat.sub_0_r. apply substring_prefix.
Qed.

Lemma _unlocalizeButtonId_encode r x : _unlocalizeButtonId r (encode r x) = x.
Proof.
  unfold _unlocalizeButtonId, encode, JS.substring_from, JS.substring, JS.clamp.
  assert (Hassoc : r +:+ "." +:+ x = (r +:+ ".") +:+ x) by apply append_assoc.
  assert (Hlen : String.length (r +:+ ".") = String.length r + 1).
  { rewrite length_append. simpl. lia. }
  rewrite Hassoc, length_append, Hlen.
  replace (Z.to_nat (Z.min (Z.max (Z.of_nat (String.length r) + 1) 0) _))
    with (String.length r + 1) by lia.
  replace (Z.to_nat (Z.min (Z.max (Z.of_nat (String.length r + 1 + String.length x)) 0) _))
    with (String.length r + 1 + String.length x) by lia.
  rewrite Nat.min_l, Nat.max_r by lia.
  replace (String.length r + 1 + String.length x - (String.length r + 1))
    with (String.length x) by lia.
  rewrite <- Hlen. apply substring_suffix.
Qed.

(** C1: for every route [r] and every local id [x] free of the delimiter,
    the owner route of the qualified id [r.x] is [r], and stripping the
    first [length r + 1] characters of [r.x] gives [x] back. *)
Theorem codec_round_trip (r x : string) :
  no_delimiter x →
  buttonRoute (encode r x) = r ∧ _unlocalizeButtonId r (encode r x) = x.
Proof.
  intros Hx. split; [by apply buttonRoute_encode | apply _unlocalizeButtonId_encode].
Qed.

Lemma codec_round_trip_witness :
  no_delimiter "exit" ∧
  buttonRoute (encode "checkout" "exit") = "checkout" ∧
  _unlocalizeButtonId "checkout" (encode "checkout" "exit") = "exit".
Proof.
  assert (Hexit : no_delimiter "exit").
  { unfold no_delimiter. refine (bool_decide_unpack _ _). vm_compute. exact I. }
  split; [exact Hexit | apply (codec_round_trip "checkout" "exit"); exact Hexit].
Defined.

(** ** Running a computation *)

Lemma bind_Ok {S A B} (m : ST S A) (f : A → ST S B) s a s' :
  m s = (Ok a, s') → (m ≫= f) s = f a s'.
Proof. intros H. unfold mbind, ST_bind. by rewrite H. Qed.

Lemma bind_Throw {S A B} (m : ST S A) (f : A → ST S B) s e s' :
  m s = (Throw e, s') → (m ≫= f) s = (Throw e, s').
Proof. intros H. unfold mbind, ST_bind. by rewrite H. Qed.

Lemma the_instance_Ok w this i :
  instances w !! this = Some i → the_instance this w = (Ok i, w).
Proof. intros H. unfold the_instance. by rewrite H. Qed.

Lemma the_class_Ok w c cl :
  classes w !! c = Some cl → the_class c w = (Ok cl, w).
Proof. intros H. unfold the_class. by rewrite H. Qed.

(** The receiver of an instance method and its class. *)
Ltac receiver Hi Hc :=
  rewrite (bind_Ok _ _ _ _ _ (the_instance_Ok _ _ _ Hi));
  rewrite (bind_Ok _ _ _ _ _ (the_class_Ok _ _ _ Hc)).

(** ** Facts on the sample data *)

Lemma sample_heap_closed : closed sample_heap.
Proof. apply (@bool_decide_unpack _ (closed_dec sample_heap)). vm_compute. exact I. Qed.

Lemma sample_bar_ok : @bar_ok sample_runtime sample_heap (VRef 5).
Proof.
  split.
  - intros _ Hid. vm_compute in Hid. discriminate.
  - intros _. exists 3, [VRef 2]. split; [reflexivity|]. split; [reflexivity|].
    constructor; [|constructor]. split; [reflexivity | exact I].
Qed.

Lemma sample_options_ok : @bar_ok sample_runtime sample_heap (VRef 1).
Proof.
  split.
  - intros Ht. vm_compute in Ht. discriminate.
  - intros _. exists 0, []. split; [reflexivity|]. split; [reflexivity|]. constructor.
Qed.

Lemma sample_listeners_ok : listeners_ok sample_world.
Proof.
  constructor; [|constructor; [|constructor]].
  - exists (Instance "ScreenA" (Some 0) VUndefined), ScreenA. by split.
  - exists (Instance "ScreenB" (Some 1) VUndefined), ScreenB. by split.
Qed.

(** ** The registered route *)

Lemma setRegisteredRoute_first w c cl r :
  classes w !! c = Some cl → route cl = "" →
  setRegisteredRoute c r w
  = (Ok tt, with_classes (<[c := with_route r cl]> (classes w)) w).
Proof.
  intros Hc Hr. unfold setRegisteredRoute.
  rewrite (bind_Ok _ _ _ _ _ (the_class_Ok _ _ _ Hc)).
  by rewrite bool_decide_eq_true_2.
Qed.

Lemma setRegisteredRoute_again w c cl r' :
  classes w !! c = Some cl → route cl ≠ "" →
  setRegisteredRoute c r' w
  = (Ok tt,
     with_console
       (console w
          ++ [("This component has already been registered as '" +:+ route cl
                 +:+ "'.  Not re-registering as '" +:+ r' +:+ "'.", None)]) w).
Proof.
  intros Hc Hr. unfold setRegisteredRoute.
  rewrite (bind_Ok _ _ _ _ _ (the_class_Ok _ _ _ Hc)).
  by rewrite bool_decide_eq_false_2.
Qed.

Lemma setRegisteredRoute_later w c cl (later : list string) :
  classes w !! c = Some cl → route cl ≠ "" →
  ∃ w', mapM (setRegisteredRoute c) later w = (Ok (replicate (length later) tt), w')
        ∧ classes w' = classes w ∧ heap w' = heap w ∧ instances w' = instances w
        ∧ listeners w' = listeners w ∧ handles w' = handles w
        ∧ requests w' = requests w ∧ presses w' = presses w
        ∧ console w'
          = console w
              ++ ((λ r', ("This component has already been registered as '"
                            +:+ route cl +:+ "'.  Not re-registering as '"
                            +:+ r' +:+ "'.", None)) <$> later).
Proof.
  revert w. induction later as [|r' later IH]; intros w Hc Hr.
  - exists w. simpl. by rewrite app_nil_r.
  - pose proof (setRegisteredRoute_again w c cl r' Hc Hr) as Hstep.
    set (w1 := with_console _ w) in Hstep.
    destruct (IH w1 Hc Hr) as (w' & Hrun & Hcl & Hh & Hi & Hl & Hn & Hq & Hp & Hco).
    exists w'. cbn [mapM length replicate].
    rewrite (bind_Ok _ _ _ _ _ Hstep), (bind_Ok _ _ _ _ _ Hrun).
    repeat split; try done.
    rewrite Hco. subst w1. cbn [console with_console fmap list_fmap].
    by rewrite <- app_assoc.
Qed.

(** C9: once [setRegisteredRoute r] has set a route [r] that is not
    empty, [getRegisteredRoute] returns [r], and every later call of
    [setRegisteredRoute] only adds a warning to the console: the route
    and the rest of the world stay as they are. *)
Theorem route_set_once (w : world) (c : string) (cl : class) (r : string)
    (later : list string) :
  classes w !! c = Some cl → route cl = "" → r ≠ "" →
  ∃ w1 w2,
    setRegisteredRoute c r w = (Ok tt, w1)
    ∧ getRegisteredRoute c w1 = (Ok r, w1)
    ∧ mapM (setRegisteredRoute c) later w1 = (Ok (replicate (length later) tt), w2)
    ∧ getRegisteredRoute c w2 = (Ok r, w2)
    ∧ classes w2 = classes w1 ∧ heap w2 = heap w1 ∧ instances w2 = instances w1
    ∧ listeners w2 = listeners w1 ∧ handles w2 = handles w1
    ∧ requests w2 = requests w1 ∧ presses w2 = presses w1
    ∧ console w2
      = console w1
          ++ ((λ r', ("This component has already been registered as '"
                        +:+ r +:+ "'.  Not re-registering as '"
                        +:+ r' +:+ "'.", None)) <$> later).
Proof.
  intros Hc Hempty Hr.
  set (w1 := with_classes (<[c := with_route r cl]> (classes w)) w).
  assert (Hc1 : classes w1 !! c = Some (with_route r cl))
    by (subst w1; cbn; apply lookup_insert_eq).
  destruct (setRegisteredRoute_later w1 c (with_route r cl) later Hc1 Hr)
    as (w2 & Hrun & Hcl & Hrest).
  exists w1, w2. split; [by apply setRegisteredRoute_first|].
  split; [unfold getRegisteredRoute; by rewrite (bind_Ok _ _ _ _ _ (the_class_Ok _ _ _ Hc1))|].
  split; [done|].
  split; [|by rewrite Hcl].
  unfold getRegisteredRoute.
  assert (Hc2 : classes w2 !! c = Some (with_route r cl)) by (by rewrite Hcl).
  by rewrite (bind_Ok _ _ _ _ _ (the_class_Ok _ _ _ Hc2)).
Qed.

Lemma route_set_once_witness :
  classes sample_world !! "Main" = Some Component
  ∧ route Component = ""
  ∧ "main" ≠ ""
  ∧ ∃ w1 w2,
      setRegisteredRoute "Main" "main" sample_world = (Ok tt, w1)
      ∧ getRegisteredRoute "Main" w1 = (Ok "main", w1)
      ∧ mapM (setRegisteredRoute "Main") ["home"; "start"] w1
        = (Ok (replicate (length ["home"; "start"]) tt), w2)
      ∧ getRegisteredRoute "Main" w2 = (Ok "main", w2)
      ∧ classes w2 = classes w1 ∧ heap w2 = heap w1 ∧ instances w2 = instances w1
      ∧ listeners w2 = listeners w1 ∧ handles w2 = handles w1
      ∧ requests w2 = requests w1 ∧ presses w2 = presses w1
      ∧ console w2
        = console w1
            ++ ((λ r', ("This component has already been registered as '"
                          +:+ "main" +:+ "'.  Not re-registering as '"
                          +:+ r' +:+ "'.", None)) <$> ["home"; "start"]).
Proof.
  split; [reflexivity|]. split; [reflexivity|]. split; [discriminate|].
  apply (route_set_once sample_world "Main" Component "main" ["home"; "start"]);
    [reflexivity | reflexivity | discriminate].
Defined.

(** ** The validation block of the internal navigation calls *)

Lemma navigateInternal_invalid `{Runtime} w this i cl screenName jsonPayload e :
  instances w !! this = Some i →
  classes w !! this_constructor i = Some cl →
  validated (appNavigator cl) screenName = Throw e →
  navigateInternal this screenName jsonPayload w = (Throw e, w).
Proof.
  intros Hi Hc Hv. unfold navigateInternal. receiver Hi Hc.
  apply bind_Throw. unfold of_result. by rewrite Hv.
Qed.

Lemma backTo_invalid w this i cl screenName e :
  instances w !! this = Some i →
  classes w !! this_constructor i = Some cl →
  validated (appNavigator cl) screenName = Throw e →
  backTo this screenName w = (Throw e, w).
Proof.
  intros Hi Hc Hv. unfold backTo. receiver Hi Hc.
  apply bind_Throw. unfold of_result. by rewrite Hv.
Qed.

(** C4, as the code has it: with no navigator attached, and with an
    attached value that is not an [AppNavigator], [navigateInternal] and
    [backTo] throw one and the same error, [errors.invalidAppNavigator],
    and leave the world as it is. *)
Theorem navigator_missing_or_invalid `{Runtime} (w : world) (this : nat)
    (i : instance) (cl : class) (screenName : option string) (jsonPayload : value) :
  instances w !! this = Some i →
  classes w !! this_constructor i = Some cl →
  appNavigator cl = Unset ∨ appNavigator cl = Foreign →
  navigateInternal this screenName jsonPayload w = (Throw invalidAppNavigator, w)
  ∧ backTo this screenName w = (Throw invalidAppNavigator, w).
Proof.
  intros Hi Hc Hnav.
  assert (Hv : validated (appNavigator cl) screenName = Throw invalidAppNavigator)
    by (destruct Hnav as [-> | ->]; reflexivity).
  split; [by eapply navigateInternal_invalid | by eapply backTo_invalid].
Qed.

Lemma navigator_missing_or_invalid_witness :
  instances (sample_world_with Foreign) !! 3 = Some (Instance "Main" None VUndefined)
  ∧ classes (sample_world_with Foreign) !! "Main" = Some (with_appNavigator Foreign Component)
  ∧ (appNavigator (with_appNavigator Foreign Component) = Unset
     ∨ appNavigator (with_appNavigator Foreign Component) = Foreign)
  ∧ @navigateInternal sample_runtime 3 (Some "Cart") VUndefined (sample_world_with Foreign)
    = (Throw invalidAppNavigator, sample_world_with Foreign)
  ∧ backTo 3 (Some "Cart") (sample_world_with Foreign)
    = (Throw invalidAppNavigator, sample_world_with Foreign).
Proof.
  split; [reflexivity|]. split; [reflexivity|]. split; [right; reflexivity|].
  apply (@navigator_missing_or_invalid sample_runtime (sample_world_with Foreign) 3
           (Instance "Main" None VUndefined) (with_appNavigator Foreign Component)
           (Some "Cart") VUndefined);
    [reflexivity | reflexivity | right; reflexivity].
Defined.

(** C4, as claimed, fails: with no navigator, and with a value that is
    not an [AppNavigator], the two calls do not throw two distinct
    errors. *)
Lemma navigator_errors_not_distinct :
  ¬ ∃ missing invalid : exn,
      missing ≠ invalid
      ∧ (@navigateInternal sample_runtime 3 (Some "Cart") VUndefined
           (sample_world_with Unset)).1 = Throw missing
      ∧ (@navigateInternal sample_runtime 3 (Some "Cart") VUndefined
           (sample_world_with Foreign)).1 = Throw invalid.
Proof.
  intros (missing & invalid & Hne & Hmissing & Hinvalid).
  vm_compute in Hmissing, Hinvalid. congruence.
Qed.

(** C5: with an [AppNavigator] attached whose [screens] are absent or
    empty, [navigateInternal] throws [errors.noValidScreens] and the
    world is as before: no request has been sent, no object allocated. *)
Theorem navigateInternal_no_screens `{Runtime} (w : world) (this : nat)
    (i : instance) (cl : class) (screens : option (gmap string string))
    (screenName : option string) (jsonPayload : value) :
  instances w !! this = Some i →
  classes w !! this_constructor i = Some cl →
  appNavigator cl = AppNavigator screens →
  screens = None ∨ screens = Some ∅ →
  navigateInternal this screenName jsonPayload w = (Throw noValidScreens, w).
Proof.
  intros Hi Hc Hnav Hscreens.
  eapply navigateInternal_invalid; [done | done |].
  rewrite Hnav. destruct Hscreens as [-> | ->]; reflexivity.
Qed.

Lemma navigateInternal_no_screens_witness :
  instances (sample_world_with (AppNavigator (Some ∅))) !! 3
  = Some (Instance "Main" None VUndefined)
  ∧ classes (sample_world_with (AppNavigator (Some ∅))) !! "Main"
    = Some (with_appNavigator (AppNavigator (Some ∅)) Component)
  ∧ @navigateInternal sample_runtime 3 (Some "Cart") VUndefined
      (sample_world_with (AppNavigator (Some ∅)))
    = (Throw noValidScreens, sample_world_with (AppNavigator (Some ∅))).
Proof.
  split; [reflexivity|]. split; [reflexivity|].
  apply (@navigateInternal_no_screens sample_runtime
           (sample_world_with (AppNavigator (Some ∅))) 3
           (Instance "Main" None VUndefined)
           (with_appNavigator (AppNavigator (Some ∅)) Component)
           (Some ∅) (Some "Cart") VUndefined);
    [reflexivity | reflexivity | reflexivity | right; reflexivity].
Defined.

(** ** Reading the store *)

Lemma truthy_not_nullish v : truthy v = true → nullish v = false.
Proof. by destruct v. Qed.

Lemma get_Ok v key h : nullish v = false → get v key h = (Ok (field h v key), h).
Proof. intros Hv. unfold get, field. by rewrite Hv. Qed.

Lemma own_props_frame h x v :
  closed_value h v → own_props (h ++ x) v = own_props h v.
Proof.
  destruct v as [| | | |l]; try done. simpl. intros Hl.
  by rewrite lookup_app_l.
Qed.

Lemma field_frame h x v key :
  closed_value h v → field (h ++ x) v key = field h v key.
Proof. intros Hv. unfold field. by rewrite own_props_frame. Qed.

Lemma indexed_values (P : value → Prop) vs :
  Forall P vs → map_Forall (λ _, P) (indexed vs).
Proof.
  intros Hvs key v Hlook. unfold indexed in Hlook.
  apply elem_of_list_to_map_2 in Hlook.
  apply elem_of_lookup_imap_1 in Hlook as (i & y & Heq & Hy).
  inversion Heq; subst. eapply Forall_lookup_1; eauto.
Qed.

Lemma own_props_closed h v :
  closed h → closed_value h v → map_Forall (λ _, closed_value h) (own_props h v).
Proof.
  intros Hh Hv. destruct v as [| | |s|l]; simpl; try apply map_Forall_empty.
  - apply indexed_values. unfold chars. apply Forall_fmap, Forall_forall. by intros.
  - destruct (h !! l) as [o|] eqn:Hl; [|apply map_Forall_empty].
    pose proof (Forall_lookup_1 _ _ _ _ Hh Hl) as Ho.
    destruct o as [props|elems]; simpl in Ho; [done|]. by apply indexed_values.
Qed.

Lemma field_closed h v key :
  closed h → closed_value h v → closed_value h (field h v key).
Proof.
  intros Hh Hv. unfold field.
  destruct (own_props h v !! key) as [x|] eqn:Hx; simpl; [|done].
  by eapply (own_props_closed h v Hh Hv).
Qed.

Lemma elements_closed h l elems :
  closed h → h !! l = Some (OArray elems) → Forall (closed_value h) elems.
Proof. intros Hh Hl. apply (Forall_lookup_1 _ _ _ _ Hh Hl). Qed.

Lemma as_string_Ok `{Runtime} v : is_Ok (ToString v) → ToString v = Ok (as_string v).
Proof. unfold as_string. by destruct (ToString v). Qed.

Lemma qualified_Ok `{Runtime} routeName id h :
  is_Ok (ToString id) →
  qualified routeName id h = (Ok (VString (encode routeName (as_string id))), h).
Proof.
  intros Hid. unfold qualified, of_result, mbind, ST_bind.
  by rewrite (as_string_Ok _ Hid).
Qed.

(** ** What the localizer allocates *)

Lemma localized_leftButton_run `{Runtime} routeName leftButton h :
  truthy leftButton = true → leftButton_ok h leftButton →
  localized_leftButton routeName leftButton h
  = (Ok (VRef (length h)), h ++ [leftButton_copy routeName h leftButton]).
Proof.
  intros Ht Hok. unfold localized_leftButton, leftButton_copy.
  unfold mbind at 1, ST_bind at 1, reading. cbn beta iota.
  rewrite (bind_Ok _ _ _ _ _ (get_Ok _ "id" h (truthy_not_nullish _ Ht))).
  destruct (truthy (field h leftButton "id")) eqn:Hid.
  - rewrite (bind_Ok _ _ _ _ _ (qualified_Ok routeName _ h (Hok Ht Hid))). done.
  - done.
Qed.

Lemma localized_button_run `{Runtime} routeName button h :
  button_ok h button →
  localized_button routeName button h
  = (Ok (VRef (length h)), h ++ [button_copy routeName h button]).
Proof.
  intros [Hn Hid]. unfold localized_button, button_copy.
  unfold mbind at 1, ST_bind at 1, reading. cbn beta iota.
  rewrite (bind_Ok _ _ _ _ _ (get_Ok _ "id" h Hn)).
  by rewrite (bind_Ok _ _ _ _ _ (qualified_Ok routeName _ h Hid)).
Qed.

Lemma button_ok_frame `{Runtime} h x button :
  closed_value h button → button_ok h button → button_ok (h ++ x) button.
Proof. intros Hc [Hn Hid]. split; [done|]. by rewrite field_frame. Qed.

Lemma button_copy_frame `{Runtime} routeName h x button :
  closed_value h button →
  button_copy routeName (h ++ x) button = button_copy routeName h button.
Proof. intros Hc. unfold button_copy. by rewrite field_frame, own_props_frame. Qed.

Lemma buttons_run `{Runtime} routeName h elems :
  Forall (closed_value h) elems → Forall (button_ok h) elems →
  ∀ x,
    mapM (localized_button routeName) elems (h ++ x)
    = (Ok (VRef <$> seq (length (h ++ x)) (length elems)),
       (h ++ x) ++ (button_copy routeName h <$> elems)).
Proof.
  induction elems as [|button elems IH]; intros Hc Hok x.
  - simpl. by rewrite app_nil_r.
  - apply Forall_cons in Hc as [Hc Hcs]. apply Forall_cons in Hok as [Hok Hoks].
    cbn [mapM].
    rewrite (bind_Ok _ _ _ _ _
               (localized_button_run routeName button (h ++ x)
                  (button_ok_frame h x button Hc Hok))).
    rewrite button_copy_frame by done.
    rewrite <- (app_assoc h x).
    rewrite (bind_Ok _ _ _ _ _ (IH Hcs Hoks _)).
    cbn [length seq fmap list_fmap mret ST_ret].
    rewrite !length_app. cbn [length].
    replace (length h + (length x + 1)) with (S (length h + length x)) by lia.
    by rewrite <- !app_assoc.
Qed.

Lemma copies_Forall2 (n : nat) (pre post : list object) (f : value → object)
    (elems : list value) :
  n ≤ length pre →
  Forall2 (λ button button',
             ∃ lb, button' = VRef lb ∧ n ≤ lb
                   ∧ (pre ++ (f <$> elems) ++ post) !! lb = Some (f button))
          elems (VRef <$> seq (length pre) (length elems)).
Proof.
  intros Hn. apply Forall2_same_length_lookup_2.
  - by rewrite length_fmap, length_seq.
  - intros i button button' Hb Hb'.
    apply list_lookup_fmap_Some in Hb' as (lb & -> & Hseq).
    apply lookup_seq in Hseq as [-> Hi].
    exists (length pre + i). split; [done|]. split; [lia|].
    rewrite lookup_app_r by lia.
    replace (length pre + i - length pre) with i by lia.
    rewrite lookup_app_l by (by rewrite length_fmap).
    by rewrite list_lookup_fmap, Hb.
Qed.

Lemma leftButton_ok_frame `{Runtime} h x leftButton :
  closed_value h leftButton →
  leftButton_ok h leftButton → leftButton_ok (h ++ x) leftButton.
Proof. intros Hc Hok. unfold leftButton_ok. by rewrite field_frame. Qed.

Lemma leftButton_copy_frame `{Runtime} routeName h x leftButton :
  closed_value h leftButton →
  leftButton_copy routeName (h ++ x) leftButton = leftButton_copy routeName h leftButton.
Proof. intros Hc. unfold leftButton_copy. by rewrite field_frame, own_props_frame. Qed.

(** The localizer on a truthy bar [v], in a store [h ++ x] whose part
    [h] is closed and holds the left button and the buttons of [v]. *)
Lemma localize_run `{Runtime} routeName h x v :
  closed h → truthy v = true → closed_value (h ++ x) v →
  closed_value h (field (h ++ x) v "leftButton") →
  closed_value h (field (h ++ x) v "buttons") →
  leftButton_ok h (field (h ++ x) v "leftButton") →
  buttons_ok h (field (h ++ x) v "buttons") →
  ∃ fresh leftButton' buttons',
    _localizeNavigationBar routeName v (h ++ x)
    = (Ok (VRef (length ((h ++ x) ++ fresh))),
       ((h ++ x) ++ fresh)
         ++ [OObject (<["buttons" := buttons']>
                        (<["leftButton" := leftButton']> (own_props (h ++ x) v)))])
    ∧ localizes_leftButton routeName h ((h ++ x) ++ fresh)
        (field (h ++ x) v "leftButton") leftButton'
    ∧ localizes_buttons routeName h ((h ++ x) ++ fresh)
        (field (h ++ x) v "buttons") buttons'.
Proof.
  intros Hh Ht Hv HcL HcB HokL HokB.
  set (g := h ++ x) in *.
  set (L := field g v "leftButton") in *. set (B := field g v "buttons") in *.
  assert (Hn : nullish v = false) by (by apply truthy_not_nullish).
  (* the left button *)
  assert (Hleft : ∃ fl L',
    (if truthy L then localized_leftButton routeName L else mret VUndefined) g
    = (Ok L', g ++ fl)
    ∧ ∀ y, localizes_leftButton routeName h ((g ++ fl) ++ y) L L').
  { unfold localizes_leftButton. destruct (truthy L) eqn:HtL.
    - exists [leftButton_copy routeName h L], (VRef (length g)). split.
      + subst g. rewrite localized_leftButton_run; [|done|by apply leftButton_ok_frame].
        by rewrite leftButton_copy_frame.
      + intros y. exists (length g). split; [done|]. split.
        * subst g. rewrite length_app. lia.
        * rewrite <- app_assoc. rewrite lookup_app_r by lia.
          by rewrite Nat.sub_diag.
    - exists [], VUndefined. split; [by rewrite app_nil_r | done]. }
  destruct Hleft as (fl & L' & HrunL & HrelL).
  (* the buttons *)
  assert (Hbuttons : ∃ fb B',
    (if truthy B
     then elems ← elements B;
          elems' ← mapM (localized_button routeName) elems;
          new (OArray elems')
     else mret VUndefined) (g ++ fl)
    = (Ok B', (g ++ fl) ++ fb)
    ∧ localizes_buttons routeName h ((g ++ fl) ++ fb) B B').
  { unfold localizes_buttons. destruct (truthy B) eqn:HtB.
    - destruct (HokB HtB) as (l & elems & HB & Hl & Hok).
      pose proof (elements_closed h l elems Hh Hl) as Hcl.
      assert (Hl' : (g ++ fl) !! l = Some (OArray elems)).
      { subst g. rewrite <- app_assoc. by apply lookup_app_l_Some. }
      assert (Hel : elements B (g ++ fl) = (Ok elems, g ++ fl)).
      { unfold elements. by rewrite HB, Hl'. }
      rewrite (bind_Ok _ _ _ _ _ Hel).
      assert (Hmap := buttons_run routeName h elems Hcl Hok (x ++ fl)).
      rewrite app_assoc in Hmap. fold g in Hmap.
      rewrite (bind_Ok _ _ _ _ _ Hmap).
      exists ((button_copy routeName h <$> elems)
                ++ [OArray (VRef <$> seq (length (g ++ fl)) (length elems))]).
      eexists. split.
      + unfold new. by rewrite <- !app_assoc.
      + exists l, elems. eexists _, _. split; [done|]. split; [done|].
        split; [done|]. split; [|split].
        * subst g. rewrite !length_app. lia.
        * rewrite !app_assoc. rewrite lookup_app_r by done.
          by rewrite Nat.sub_diag.
        * apply copies_Forall2. subst g. rewrite !length_app. lia.
    - exists [], VUndefined. split; [by rewrite app_nil_r | done]. }
  destruct Hbuttons as (fb & B' & HrunB & HrelB).
  exists (fl ++ fb), L', B'. rewrite !app_assoc. split; [|split].
  - unfold _localizeNavigationBar. rewrite Ht. cbn [negb].
    unfold mbind at 1, ST_bind at 1, reading. cbn beta iota.
    rewrite (bind_Ok _ _ _ _ _ (get_Ok v "leftButton" g Hn)). fold L.
    rewrite (bind_Ok _ _ _ _ _ HrunL).
    assert (HgetB : get v "buttons" (g ++ fl) = (Ok B, g ++ fl)).
    { rewrite get_Ok by done. unfold B. by rewrite field_frame. }
    rewrite (bind_Ok _ _ _ _ _ HgetB).
    rewrite (bind_Ok _ _ _ _ _ HrunB). done.
  - apply HrelL.
  - apply HrelB.
Qed.

Lemma localize_run_here `{Runtime} routeName h v :
  closed h → closed_value h v → truthy v = true → bar_ok h v →
  ∃ fresh leftButton' buttons',
    _localizeNavigationBar routeName v h
    = (Ok (VRef (length (h ++ fresh))),
       (h ++ fresh)
         ++ [OObject (<["buttons" := buttons']>
                        (<["leftButton" := leftButton']> (own_props h v)))])
    ∧ localizes_leftButton routeName h (h ++ fresh) (field h v "leftButton") leftButton'
    ∧ localizes_buttons routeName h (h ++ fresh) (field h v "buttons") buttons'.
Proof.
  intros Hh Hv Ht [HokL HokB].
  pose proof (localize_run routeName h [] v) as Hrun.
  rewrite !app_nil_r in Hrun.
  apply Hrun; try done; by apply field_closed.
Qed.

(** ** The left button without an id *)

(** C7: when the left button of a bar is there and has no [id], the
    localizer returns a bar whose left button is a copy of it with an
    [id] that is [undefined]: no qualified id is made up.  (The buttons
    of the bar are such that the call returns.) *)
Theorem leftButton_without_id `{Runtime} (routeName : string) (h : list object)
    (navigationBar leftButton : value) :
  closed h → closed_value h navigationBar → truthy navigationBar = true →
  field h navigationBar "leftButton" = leftButton →
  truthy leftButton = true →
  field h leftButton "id" = VUndefined →
  buttons_ok h (field h navigationBar "buttons") →
  ∃ bar h' leftButton',
    _localizeNavigationBar routeName navigationBar h = (Ok bar, h')
    ∧ field h' bar "leftButton" = leftButton'
    ∧ truthy leftButton' = true
    ∧ field h' leftButton' "id" = VUndefined
    ∧ own_props h' leftButton' = <["id" := VUndefined]> (own_props h leftButton).
Proof.
  intros Hh Hv Ht HL HtL Hid HokB.
  destruct (localize_run_here routeName h navigationBar Hh Hv Ht)
    as (fresh & L' & B' & Hrun & HrelL & _).
  { split; [|done]. rewrite HL. intros _. by rewrite Hid. }
  rewrite HL in HrelL. unfold localizes_leftButton in HrelL. rewrite HtL in HrelL.
  destruct HrelL as (l & -> & Hl & Hcopy).
  unfold leftButton_copy in Hcopy. rewrite Hid in Hcopy. cbn [truthy] in Hcopy.
  eexists _, _, (VRef l). split; [exact Hrun|].
  assert (Hbar : field ((h ++ fresh) ++ [OObject (<["buttons" := B']>
                   (<["leftButton" := VRef l]> (own_props h navigationBar)))])
                   (VRef (length (h ++ fresh))) "leftButton" = VRef l).
  { unfold field. cbn [own_props]. rewrite lookup_app_r by done.
    rewrite Nat.sub_diag. cbn [lookup list_lookup].
    rewrite lookup_insert_ne by done. by rewrite lookup_insert_eq. }
  assert (Hleft : own_props ((h ++ fresh) ++ [OObject (<["buttons" := B']>
                   (<["leftButton" := VRef l]> (own_props h navigationBar)))])
                   (VRef l) = <["id" := VUndefined]> (own_props h leftButton)).
  { cbn [own_props]. by rewrite (lookup_app_l_Some _ _ _ _ Hcopy). }
  split; [exact Hbar|]. split; [done|]. split; [|exact Hleft].
  unfold field. rewrite Hleft. by rewrite lookup_insert_eq.
Qed.

Lemma leftButton_without_id_witness :
  closed sample_heap
  ∧ field sample_heap (VRef 5) "leftButton" = VRef 4
  ∧ field sample_heap (VRef 4) "id" = VUndefined
  ∧ ∃ bar h' leftButton',
      @_localizeNavigationBar sample_runtime "checkout" (VRef 5) sample_heap = (Ok bar, h')
      ∧ field h' bar "leftButton" = leftButton'
      ∧ truthy leftButton' = true
      ∧ field h' leftButton' "id" = VUndefined
      ∧ own_props h' leftButton' = <["id" := VUndefined]> (own_props sample_heap (VRef 4)).
Proof.
  split; [exact sample_heap_closed|]. split; [reflexivity|]. split; [reflexivity|].
  apply (@leftButton_without_id sample_runtime "checkout" sample_heap (VRef 5) (VRef 4));
    [exact sample_heap_closed | simpl; lia | reflexivity | reflexivity
    | reflexivity | reflexivity | exact (proj2 sample_bar_ok)].
Defined.

(** ** The right buttons *)

(** C8: when the buttons of a bar are an array, the localizer returns a
    bar whose buttons are an array of the same length; its element [i]
    is a copy of button [i] with [location] set to ["right"] and [id] set
    to the id of the button qualified by the route, every other property
    being the one of the button.  (The left button and the ids are such
    that the call returns.) *)
Theorem buttons_localized `{Runtime} (routeName : string) (h : list object)
    (navigationBar : value) (l : loc) (elems : list value) :
  closed h → closed_value h navigationBar → truthy navigationBar = true →
  field h navigationBar "buttons" = VRef l →
  h !! l = Some (OArray elems) →
  Forall (button_ok h) elems →
  leftButton_ok h (field h navigationBar "leftButton") →
  ∃ bar h' l' elems',
    _localizeNavigationBar routeName navigationBar h = (Ok bar, h')
    ∧ field h' bar "buttons" = VRef l'
    ∧ h' !! l' = Some (OArray elems')
    ∧ length elems' = length elems
    ∧ ∀ i button, elems !! i = Some button →
        ∃ button' s,
          elems' !! i = Some button'
          ∧ ToString (field h button "id") = Ok s
          ∧ field h' button' "location" = VString "right"
          ∧ field h' button' "id" = VString (encode routeName s)
          ∧ ∀ key, key ≠ "id" → key ≠ "location" →
                   own_props h' button' !! key = own_props h button !! key.
Proof.
  intros Hh Hv Ht HB Hl Hok HokL.
  destruct (localize_run_here routeName h navigationBar Hh Hv Ht)
    as (fresh & L' & B' & Hrun & _ & HrelB).
  { split; [done|]. rewrite HB. intros _. by exists l, elems. }
  rewrite HB in HrelB. unfold localizes_buttons in HrelB. cbn [truthy] in HrelB.
  destruct HrelB as (l0 & elems0 & l' & elems' & Heq & Hl0 & -> & Hl' & Harr & Hall).
  simplify_eq.
  set (h' := (h ++ fresh) ++ _) in Hrun.
  exists (VRef (length (h ++ fresh))), h', l', elems'.
  split; [exact Hrun|]. split; [|split; [|split]].
  - unfold field, h'. cbn [own_props]. rewrite lookup_app_r by done.
    rewrite Nat.sub_diag. cbn [lookup list_lookup]. by rewrite lookup_insert_eq.
  - unfold h'. by apply lookup_app_l_Some.
  - symmetry. by eapply Forall2_length.
  - intros i button Hi.
    destruct (Forall2_lookup_l _ _ _ _ _ Hall Hi) as (button' & Hi' & lb & -> & Hlb & Hcopy).
    pose proof (Forall_lookup_1 _ _ _ _ Hok Hi) as [_ Hconv].
    exists (VRef lb), (as_string (field h button "id")).
    assert (Hprops : own_props h' (VRef lb)
                     = <["id" := VString (encode routeName (as_string (field h button "id")))]>
                         (<["location" := VString "right"]> (own_props h button))).
    { unfold h'. cbn [own_props]. by rewrite (lookup_app_l_Some _ _ _ _ Hcopy). }
    split; [done|]. split; [by apply as_string_Ok|].
    unfold field. rewrite Hprops. split; [|split].
    + rewrite lookup_insert_ne by done. by rewrite lookup_insert_eq.
    + by rewrite lookup_insert_eq.
    + intros key Hk1 Hk2. by rewrite !lookup_insert_ne.
Qed.

Lemma buttons_localized_witness :
  closed sample_heap
  ∧ field sample_heap (VRef 5) "buttons" = VRef 3
  ∧ sample_heap !! 3 = Some (OArray [VRef 2])
  ∧ ∃ bar h' l' elems',
      @_localizeNavigationBar sample_runtime "checkout" (VRef 5) sample_heap = (Ok bar, h')
      ∧ field h' bar "buttons" = VRef l'
      ∧ h' !! l' = Some (OArray elems')
      ∧ length elems' = length [VRef 2]
      ∧ ∀ i button, [VRef 2] !! i = Some button →
          ∃ button' s,
            elems' !! i = Some button'
            ∧ @ToString sample_runtime (field sample_heap button "id") = Ok s
            ∧ field h' button' "location" = VString "right"
            ∧ field h' button' "id" = VString (encode "checkout" s)
            ∧ ∀ key, key ≠ "id" → key ≠ "location" →
                     own_props h' button' !! key = own_props sample_heap button !! key.
Proof.
  split; [exact sample_heap_closed|]. split; [reflexivity|]. split; [reflexivity|].
  apply (@buttons_localized sample_runtime "checkout" sample_heap (VRef 5) 3 [VRef 2]);
    [exact sample_heap_closed | simpl; lia | reflexivity | reflexivity | reflexivity
    | constructor; [split; [reflexivity | exact I] | constructor]
    | exact (proj1 sample_bar_ok)].
Defined.

(** ** The localizer only allocates *)

Lemma only_allocates_still {A} (m : ST (list object) A) :
  (∀ h, (m h).2 = h) → only_allocates m.
Proof. intros Hm h. exists []. by rewrite app_nil_r. Qed.

Lemma only_allocates_bind {A B} (m : ST (list object) A) (f : A → ST (list object) B) :
  only_allocates m → (∀ a, only_allocates (f a)) → only_allocates (m ≫= f).
Proof.
  intros Hm Hf h. destruct (Hm h) as [x Hx].
  unfold mbind, ST_bind. destruct (m h) as [[a|e] h1]; simpl in Hx; subst h1.
  - destruct (Hf a (h ++ x)) as [y Hy]. exists (x ++ y). by rewrite Hy, app_assoc.
  - by exists x.
Qed.

Lemma only_allocates_new o : only_allocates (new o).
Proof. intros h. by exists [o]. Qed.

Lemma only_allocates_get v key : only_allocates (get v key).
Proof. apply only_allocates_still. intros h. unfold get. by destruct (nullish v). Qed.

Lemma only_allocates_elements v : only_allocates (elements v).
Proof.
  apply only_allocates_still. intros h. unfold elements.
  destruct v as [| | | |l]; try done. by destruct (h !! l) as [[|]|].
Qed.

Lemma only_allocates_qualified `{Runtime} routeName id :
  only_allocates (qualified routeName id).
Proof.
  apply only_allocates_still. intros h.
  unfold qualified, of_result, mbind, ST_bind. by destruct (ToString id).
Qed.

Lemma only_allocates_mapM {A B} (f : A → ST (list object) B) (l : list A) :
  (∀ a, only_allocates (f a)) → only_allocates (mapM f l).
Proof.
  intros Hf. induction l as [|a l IH]; [by apply only_allocates_still|].
  cbn [mapM]. apply only_allocates_bind; [done|]. intros b.
  apply only_allocates_bind; [done|]. intros bs. by apply only_allocates_still.
Qed.

Lemma returns_new_only_allocates (m : ST (list object) value) :
  returns_new m → only_allocates m.
Proof. intros Hm h. destruct (Hm h) as (x & Hx & _). by exists x. Qed.

Lemma returns_new_new o : returns_new (new o).
Proof.
  intros h. exists [o]. split; [done|]. intros v Hv. exists (length h).
  cbn in Hv. simplify_eq. rewrite length_app. cbn. split; [done|lia].
Qed.

Lemma returns_new_bind {A} (m : ST (list object) A) (f : A → ST (list object) value) :
  only_allocates m → (∀ a, returns_new (f a)) → returns_new (m ≫= f).
Proof.
  intros Hm Hf h. destruct (Hm h) as [x Hx].
  unfold mbind, ST_bind. destruct (m h) as [[a|e] h1]; simpl in Hx; subst h1.
  - destruct (Hf a (h ++ x)) as (y & Hy & Hnew). exists (x ++ y).
    rewrite Hy, app_assoc. split; [done|]. intros v Hv.
    destruct (Hnew v Hv) as (l & -> & Hl). exists l. split; [done|].
    rewrite !length_app in *. lia.
  - exists x. split; [done|]. by intros v Hv.
Qed.

Lemma returns_new_localized_leftButton `{Runtime} routeName leftButton :
  returns_new (localized_leftButton routeName leftButton).
Proof.
  unfold localized_leftButton.
  apply returns_new_bind; [by apply only_allocates_still|]. intros props.
  apply returns_new_bind; [apply only_allocates_get|]. intros id.
  apply returns_new_bind; [|intros; apply returns_new_new].
  destruct (truthy id); [apply only_allocates_qualified | by apply only_allocates_still].
Qed.

Lemma returns_new_localized_button `{Runtime} routeName button :
  returns_new (localized_button routeName button).
Proof.
  unfold localized_button.
  apply returns_new_bind; [by apply only_allocates_still|]. intros props.
  apply returns_new_bind; [apply only_allocates_get|]. intros id.
  apply returns_new_bind; [apply only_allocates_qualified|].
  intros; apply returns_new_new.
Qed.

Lemma returns_new_localize `{Runtime} routeName navigationBar :
  returns_new (_localizeNavigationBar routeName navigationBar).
Proof.
  unfold _localizeNavigationBar.
  destruct (truthy navigationBar); cbn [negb]; [|apply returns_new_new].
  apply returns_new_bind; [by apply only_allocates_still|]. intros props.
  apply returns_new_bind; [apply only_allocates_get|]. intros leftButton.
  apply returns_new_bind.
  { destruct (truthy leftButton); [|by apply only_allocates_still].
    apply returns_new_only_allocates, returns_new_localized_leftButton. }
  intros leftButton'.
  apply returns_new_bind; [apply only_allocates_get|]. intros buttons.
  apply returns_new_bind; [|intros; apply returns_new_new].
  destruct (truthy buttons); [|by apply only_allocates_still].
  apply only_allocates_bind; [apply only_allocates_elements|]. intros elems.
  apply only_allocates_bind; [|intros; apply only_allocates_new].
  apply only_allocates_mapM. intros button.
  apply returns_new_only_allocates, returns_new_localized_button.
Qed.

(** C10: whatever the route and the bar, and whether it returns or
    throws, the localizer leaves every object of the store as it was: the
    bar, its left button and its buttons keep their properties, the ids
    they had included; and the bar it returns is a new object. *)
Theorem localize_does_not_mutate `{Runtime} (routeName : string)
    (navigationBar : value) (h : list object) :
  let out := _localizeNavigationBar routeName navigationBar h in
  (∀ l o, h !! l = Some o → out.2 !! l = Some o)
  ∧ (∀ v, closed_value h v → own_props out.2 v = own_props h v)
  ∧ (∀ v key, closed_value h v → field out.2 v key = field h v key)
  ∧ (∀ bar, out.1 = Ok bar →
        ∃ l, bar = VRef l ∧ h !! l = None ∧ is_Some (out.2 !! l)).
Proof.
  intros out. subst out.
  destruct (returns_new_localize routeName navigationBar h) as (fresh & -> & Hnew).
  split; [|split; [|split]].
  - intros l o Hl. by apply lookup_app_l_Some.
  - intros v Hv. by apply own_props_frame.
  - intros v key Hv. by apply field_frame.
  - intros bar Hbar. destruct (Hnew bar Hbar) as (l & -> & Hl1 & Hl2).
    exists l. split; [done|]. split.
    + by apply lookup_ge_None_2.
    + by apply lookup_lt_is_Some_2.
Qed.

(** ** What a value looks like does not depend on later allocations *)

Lemma snapshot_frame d h x v :
  closed h → closed_value h v → snapshot d (h ++ x) v = snapshot d h v.
Proof.
  intros Hh. revert v. induction d as [|d IH]; intros v Hv; [by destruct v|].
  destruct v as [| | | |l]; try done. cbn [snapshot]. simpl in Hv.
  rewrite lookup_app_l by done.
  destruct (h !! l) as [o|] eqn:Hl; [|done].
  pose proof (Forall_lookup_1 _ _ _ _ Hh Hl) as Ho.
  destruct o as [props|elems]; simpl in Ho; f_equal.
  - apply map_fmap_ext. intros key v Hkey. apply IH. by apply (Ho key).
  - apply Forall_fmap_ext. eapply Forall_impl; [exact Ho|]. intros v Hcv. by apply IH.
Qed.

Lemma snapshot_props_frame d h x (props : gmap string value) :
  closed h → map_Forall (λ _, closed_value h) props →
  snapshot d (h ++ x) <$> props = snapshot d h <$> props.
Proof.
  intros Hh Hprops. apply map_fmap_ext. intros key v Hkey.
  apply snapshot_frame; [done|]. by apply (Hprops key).
Qed.

Lemma snapshot_new d h x y l (props : gmap string value) :
  closed h → length h ≤ l →
  (h ++ x) !! l = Some (OObject props) →
  map_Forall (λ _, closed_value h) props →
  snapshot d ((h ++ x) ++ y) (VRef l)
  = match d with
    | 0 => TDeeper
    | S d' => TObject (snapshot d' h <$> props)
    end.
Proof.
  intros Hh Hl Hlook Hprops. destruct d as [|d]; [done|]. cbn [snapshot].
  rewrite (lookup_app_l_Some _ _ _ _ Hlook). f_equal.
  rewrite <- app_assoc. by apply snapshot_props_frame.
Qed.

Lemma leftButton_copy_closed `{Runtime} routeName h leftButton props :
  closed h → closed_value h leftButton →
  leftButton_copy routeName h leftButton = OObject props →
  map_Forall (λ _, closed_value h) props.
Proof.
  intros Hh Hv Heq. unfold leftButton_copy in Heq. simplify_eq.
  apply map_Forall_insert_2; [by destruct (truthy _)|]. by apply own_props_closed.
Qed.

Lemma button_copy_closed `{Runtime} routeName h button props :
  closed h → closed_value h button →
  button_copy routeName h button = OObject props →
  map_Forall (λ _, closed_value h) props.
Proof.
  intros Hh Hv Heq. unfold button_copy in Heq. simplify_eq.
  apply map_Forall_insert_2; [done|]. apply map_Forall_insert_2; [done|].
  by apply own_props_closed.
Qed.

(** Two localized forms of one left button look the same. *)
Lemma localizes_leftButton_same `{Runtime} routeName h x1 y1 x2 y2 leftButton v1 v2 d :
  closed h → closed_value h leftButton →
  localizes_leftButton routeName h (h ++ x1) leftButton v1 →
  localizes_leftButton routeName h (h ++ x2) leftButton v2 →
  snapshot d ((h ++ x1) ++ y1) v1 = snapshot d ((h ++ x2) ++ y2) v2.
Proof.
  intros Hh Hv. unfold localizes_leftButton.
  destruct (truthy leftButton); [|by intros -> ->; destruct d].
  intros (l1 & -> & Hl1 & Hc1) (l2 & -> & Hl2 & Hc2).
  destruct (leftButton_copy routeName h leftButton) as [props|elems] eqn:Hcopy;
    [|done].
  pose proof (leftButton_copy_closed routeName h leftButton props Hh Hv Hcopy).
  by rewrite !(snapshot_new d h _ _ _ props).
Qed.

(** Two localized forms of one array of buttons look the same. *)
Lemma localizes_buttons_same `{Runtime} routeName h x1 y1 x2 y2 buttons v1 v2 d :
  closed h → closed_value h buttons →
  localizes_buttons routeName h (h ++ x1) buttons v1 →
  localizes_buttons routeName h (h ++ x2) buttons v2 →
  snapshot d ((h ++ x1) ++ y1) v1 = snapshot d ((h ++ x2) ++ y2) v2.
Proof.
  intros Hh Hv. unfold localizes_buttons.
  destruct (truthy buttons); [|by intros -> ->; destruct d].
  intros (l & elems & l1 & elems1 & -> & Hl & -> & Hl1 & Ha1 & Hall1)
         (l' & elems' & l2 & elems2 & Heq & Hl' & -> & Hl2 & Ha2 & Hall2).
  injection Heq as <-. rewrite Hl in Hl'. injection Hl' as <-.
  pose proof (elements_closed h l elems Hh Hl) as Hcl.
  destruct d as [|d]; [done|]. cbn [snapshot].
  rewrite (lookup_app_l_Some _ _ _ _ Ha1), (lookup_app_l_Some _ _ _ _ Ha2).
  f_equal. clear Ha1 Ha2 Hl Hl1 Hl2.
  revert elems2 Hall2. induction Hall1 as [|button b1 elems elems1 Hb1 _ IH];
    intros elems2 Hall2; inversion Hall2 as [|? b2 ? elems2' Hb2 Hrest2]; subst;
    [done|].
  apply Forall_cons in Hcl as [Hcb Hcl].
  destruct Hb1 as (lb1 & -> & Hlb1 & Hc1). destruct Hb2 as (lb2 & -> & Hlb2 & Hc2).
  cbn [fmap list_fmap]. f_equal; [|by apply IH].
  destruct (button_copy routeName h button) as [props|] eqn:Hcopy; [|done].
  pose proof (button_copy_closed routeName h button props Hh Hcb Hcopy).
  by rewrite !(snapshot_new d h _ _ _ props).
Qed.

(** ** The bar of an update *)

Lemma without_new_run key h props :
  without key (VRef (length h)) (h ++ [OObject props])
  = (Ok (default VUndefined (props !! key), VRef (length (h ++ [OObject props]))),
     (h ++ [OObject props]) ++ [OObject (delete key props)]).
Proof.
  assert (Hown : own_props (h ++ [OObject props]) (VRef (length h)) = props).
  { cbn [own_props]. rewrite lookup_app_r by done. by rewrite Nat.sub_diag. }
  unfold without.
  rewrite (bind_Ok _ _ _ _ _ (get_Ok (VRef (length h)) key _ eq_refl)).
  unfold mbind at 1, ST_bind at 1, reading. cbn beta iota.
  unfold field. rewrite Hown. done.
Qed.

(** Localizing and then stripping [overlay], as the code does, and
    stripping [overlay] and then localizing, as the specification says,
    give bars that look the same. *)
Lemma update_bar_refines `{Runtime} routeName h bar :
  closed h → closed_value h bar → truthy bar = true → bar_ok h bar →
  ∃ overlay sent hc expected hs,
    (localized ← _localizeNavigationBar routeName bar; without "overlay" localized) h
    = (Ok (overlay, sent), hc)
    ∧ updateBar_spec routeName bar h = (Ok expected, hs)
    ∧ own_props hc sent !! "overlay" = None
    ∧ ∀ d, snapshot d hc sent = snapshot d hs expected.
Proof.
  intros Hh Hv Ht Hok.
  set (p := own_props h bar).
  assert (Hp : map_Forall (λ _, closed_value h) p) by (by apply own_props_closed).
  (* the code *)
  destruct (localize_run_here routeName h bar Hh Hv Ht Hok)
    as (f1 & L1 & B1 & Hrun1 & HL1 & HB1).
  fold p in Hrun1.
  set (q1 := <["buttons" := B1]> (<["leftButton" := L1]> p)) in *.
  (* the specification *)
  set (x := [OObject (delete "overlay" p)]).
  assert (Hstrip : without "overlay" bar h = (Ok (field h bar "overlay", VRef (length h)), h ++ x)).
  { unfold without.
    rewrite (bind_Ok _ _ _ _ _ (get_Ok _ "overlay" _ (truthy_not_nullish _ Ht))).
    done. }
  assert (Hown : own_props (h ++ x) (VRef (length h)) = delete "overlay" p).
  { cbn [own_props]. rewrite lookup_app_r by done. by rewrite Nat.sub_diag. }
  assert (HfL : field (h ++ x) (VRef (length h)) "leftButton" = field h bar "leftButton").
  { unfold field. rewrite Hown. by rewrite lookup_delete_ne. }
  assert (HfB : field (h ++ x) (VRef (length h)) "buttons" = field h bar "buttons").
  { unfold field. rewrite Hown. by rewrite lookup_delete_ne. }
  destruct Hok as [HokL HokB].
  destruct (localize_run routeName h x (VRef (length h)))
    as (f2 & L2 & B2 & Hrun2 & HL2 & HB2); try done.
  { cbn. rewrite length_app. cbn. lia. }
  { rewrite HfL. by apply field_closed. }
  { rewrite HfB. by apply field_closed. }
  { by rewrite HfL. }
  { by rewrite HfB. }
  rewrite Hown in Hrun2. rewrite HfL in HL2. rewrite HfB in HB2.
  eexists _, _, _, _, _. split; [|split; [|split]].
  - rewrite (bind_Ok _ _ _ _ _ Hrun1). apply without_new_run.
  - unfold updateBar_spec. rewrite (bind_Ok _ _ _ _ _ Hstrip). exact Hrun2.
  - cbn [own_props]. rewrite lookup_app_r by done. rewrite Nat.sub_diag.
    cbn [lookup list_lookup]. apply lookup_delete_eq.
  - intros [|d]; [done|]. cbn [snapshot].
    rewrite lookup_app_r by done. rewrite Nat.sub_diag.
    rewrite (lookup_app_r ((h ++ x) ++ f2)) by done. rewrite Nat.sub_diag.
    cbn [lookup list_lookup]. f_equal. subst q1.
    rewrite !delete_insert_ne by done. rewrite !fmap_insert.
    rewrite <- (app_assoc (h ++ f1)).
    rewrite <- (app_assoc h x f2) in *.
    f_equal; [|f_equal].
    + by eapply localizes_buttons_same; [| apply field_closed | |].
    + by eapply localizes_leftButton_same; [| apply field_closed | |].
    + assert (Hd : map_Forall (λ _, closed_value h) (delete "overlay" p))
        by (by apply map_Forall_delete).
      rewrite <- !(app_assoc h).
      by rewrite !snapshot_props_frame.
Qed.

Lemma on_heap_Ok {A} (m : ST (list object) A) w a h :
  m (heap w) = (Ok a, h) → on_heap m w = (Ok a, with_heap h w).
Proof. intros Hm. unfold on_heap. by rewrite Hm. Qed.

(** C6: for a bar whose localization returns, [updateNavigationBar]
    sends one update request, with the route as path and a bar that has
    no [overlay] property and looks, at every depth, like the bar the
    specification describes: the given bar stripped of [overlay], then
    localized. *)
Theorem update_payload `{Runtime} (w : world) (this : nat) (i : instance)
    (cl : class) (bar : value) :
  instances w !! this = Some i →
  classes w !! this_constructor i = Some cl →
  closed (heap w) → closed_value (heap w) bar →
  truthy bar = true → bar_ok (heap w) bar →
  ∃ sent w' expected hs,
    updateNavigationBar this bar w = (Ok tt, w')
    ∧ requests w' = requests w ++ [Update (route cl) sent]
    ∧ own_props (heap w') sent !! "overlay" = None
    ∧ updateBar_spec (route cl) bar (heap w) = (Ok expected, hs)
    ∧ ∀ d, snapshot d (heap w') sent = snapshot d hs expected.
Proof.
  intros Hi Hc Hh Hv Ht Hok.
  destruct (update_bar_refines (route cl) (heap w) bar Hh Hv Ht Hok)
    as (overlay & sent & hc & expected & hs & Hcode & Hspec & Hno & Hsame).
  exists sent, (with_requests (requests w ++ [Update (route cl) sent]) (with_heap hc w)),
    expected, hs.
  split; [|done].
  unfold updateNavigationBar. receiver Hi Hc.
  by rewrite (bind_Ok _ _ _ _ _ (on_heap_Ok _ _ _ _ Hcode)).
Qed.

Lemma update_payload_witness :
  closed (heap sample_world)
  ∧ truthy (VRef 5) = true
  ∧ @bar_ok sample_runtime (heap sample_world) (VRef 5)
  ∧ ∃ sent w' expected hs,
      @updateNavigationBar sample_runtime 0 (VRef 5) sample_world = (Ok tt, w')
      ∧ requests w' = requests sample_world ++ [Update (route Checkout) sent]
      ∧ own_props (heap w') sent !! "overlay" = None
      ∧ @updateBar_spec sample_runtime (route Checkout) (VRef 5) (heap sample_world)
        = (Ok expected, hs)
      ∧ ∀ d, snapshot d (heap w') sent = snapshot d hs expected.
Proof.
  split; [exact sample_heap_closed|]. split; [reflexivity|].
  split; [exact sample_bar_ok|].
  apply (@update_payload sample_runtime sample_world 0
           (Instance "Checkout" None VUndefined) Checkout (VRef 5));
    [reflexivity | reflexivity | exact sample_heap_closed | simpl; lia
    | reflexivity | exact sample_bar_ok].
Defined.

(** ** Dispatching a button press *)

Lemma dispatched_ext w w0 buttonId l :
  instances w = instances w0 → classes w = classes w0 →
  dispatched w buttonId l = dispatched w0 buttonId l.
Proof. intros Hi Hc. unfold dispatched. by rewrite Hi, Hc. Qed.

Lemma _handleNavButtonPress_run w hd this i cl buttonId :
  instances w !! this = Some i →
  classes w !! this_constructor i = Some cl →
  ∃ w', _handleNavButtonPress this buttonId w = (Ok tt, w')
        ∧ classes w' = classes w ∧ instances w' = instances w
        ∧ listeners w' = listeners w ∧ handles w' = handles w
        ∧ heap w' = heap w ∧ requests w' = requests w
        ∧ presses w'
          = presses w ++ option_list (dispatched w buttonId (hd, this)).
Proof.
  intros Hi Hc. unfold _handleNavButtonPress, dispatched. receiver Hi Hc.
  cbn [snd]. rewrite Hi. cbn [mbind option_bind]. rewrite Hc. cbn [mbind option_bind].
  destruct (_shouldDispatchButtonPressEvent (route cl) buttonId);
    [|exists w; by rewrite app_nil_r].
  destruct (handler_of cl) as [f|]; [|exists w; by rewrite app_nil_r].
  cbn [mbind option_bind option_list]. unfold call.
  unfold mbind at 1, ST_bind at 1. cbn beta iota.
  destruct f; try (eexists; split; [reflexivity|done]).
  unfold onNavButtonPress.
  rewrite (bind_Ok _ _ _ _ _ (the_instance_Ok (with_presses _ w) this i Hi)).
  eexists; split; [reflexivity|done].
Qed.

Lemma emit_run buttonId w0 (ls : list (handle * nat)) :
  Forall (λ l : handle * nat,
            ∃ i cl, instances w0 !! l.2 = Some i
                    ∧ classes w0 !! this_constructor i = Some cl) ls →
  ∀ w, classes w = classes w0 → instances w = instances w0 →
  ∃ w', mapM (λ l : handle * nat, _handleNavButtonPress l.2 buttonId) ls w
        = (Ok (replicate (length ls) tt), w')
        ∧ classes w' = classes w0 ∧ instances w' = instances w0
        ∧ listeners w' = listeners w ∧ handles w' = handles w
        ∧ heap w' = heap w ∧ requests w' = requests w
        ∧ presses w' = presses w ++ omap (dispatched w0 buttonId) ls.
Proof.
  induction ls as [|[hd this] ls IH]; intros Hls w Hc Hi.
  - exists w. cbn. by rewrite app_nil_r.
  - apply Forall_cons in Hls as [(i & cl & Hthis & Hcl) Hls]. cbn [snd] in *.
    rewrite <- Hi in Hthis. rewrite <- Hc in Hcl.
    destruct (_handleNavButtonPress_run w hd this i cl buttonId Hthis Hcl)
      as (w1 & Hrun1 & Hc1 & Hi1 & Hl1 & Hn1 & Hh1 & Hr1 & Hp1).
    destruct (IH Hls w1) as (w' & Hrun & Hc' & Hi' & Hl' & Hn' & Hh' & Hr' & Hp');
      [congruence | congruence |].
    exists w'. cbn [mapM length replicate].
    rewrite (bind_Ok _ _ _ _ _ Hrun1), (bind_Ok _ _ _ _ _ Hrun).
    repeat split; try congruence.
    rewrite Hp', Hp1. cbn [omap list_omap].
    rewrite (dispatched_ext w w0) by done.
    destruct (dispatched w0 buttonId (hd, this)); cbn [option_list].
    + by rewrite <- app_assoc.
    + by rewrite app_nil_r.
Qed.

Lemma emit_presses buttonId w :
  listeners_ok w →
  ∃ w', emit buttonId w = (Ok tt, w')
        ∧ classes w' = classes w ∧ instances w' = instances w
        ∧ listeners w' = listeners w ∧ handles w' = handles w
        ∧ heap w' = heap w ∧ requests w' = requests w
        ∧ presses w' = presses w ++ omap (dispatched w buttonId) (listeners w).
Proof.
  intros Hok.
  destruct (emit_run buttonId w (listeners w) Hok w eq_refl eq_refl)
    as (w' & Hrun & Hrest).
  exists w'. split; [|done]. unfold emit. by rewrite (bind_Ok _ _ _ _ _ Hrun).
Qed.

Lemma added_app {A} (l k : list A) : added l (l ++ k) = k.
Proof. unfold added. by rewrite drop_app_length. Qed.

(** C2: a button press with the qualified id ["A.save"] calls, at every
    subscribed listener whose class is registered as ["A"], the handler
    of that class with the local id ["save"], and calls nothing else: no
    handler of a class registered under another route, ["B"] included. *)
Theorem press_reaches_its_route_only (w : world) :
  listeners_ok w →
  ∃ w',
    emit "A.save" w = (Ok tt, w')
    ∧ (∀ hd this i cl f,
         (hd, this) ∈ listeners w →
         instances w !! this = Some i →
         classes w !! this_constructor i = Some cl →
         route cl = "A" → handler_of cl = Some f →
         Press this f "save" ∈ added (presses w) (presses w'))
    ∧ (∀ p, p ∈ added (presses w) (presses w') →
         pressed_id p = "save"
         ∧ ∃ i cl, instances w !! receiver p = Some i
                   ∧ classes w !! this_constructor i = Some cl
                   ∧ route cl = "A"
                   ∧ handler_of cl = Some (pressed_handler p))
    ∧ (∀ p i cl, p ∈ added (presses w) (presses w') →
         instances w !! receiver p = Some i →
         classes w !! this_constructor i = Some cl →
         route cl ≠ "B").
Proof.
  intros Hok.
  destruct (emit_presses "A.save" w Hok) as (w' & Hrun & _ & _ & _ & _ & _ & _ & Hp).
  exists w'. split; [done|]. rewrite Hp, added_app.
  assert (Honly : ∀ p, p ∈ omap (dispatched w "A.save") (listeners w) →
            pressed_id p = "save"
            ∧ ∃ i cl, instances w !! receiver p = Some i
                      ∧ classes w !! this_constructor i = Some cl
                      ∧ route cl = "A"
                      ∧ handler_of cl = Some (pressed_handler p)).
  { intros p Hin. apply list_elem_of_omap in Hin as ([hd this] & _ & Hd).
    unfold dispatched in Hd. cbn [snd] in Hd.
    destruct (instances w !! this) as [i|] eqn:Hi; [|done]. cbn in Hd.
    destruct (classes w !! this_constructor i) as [cl|] eqn:Hc; [|done]. cbn in Hd.
    unfold _shouldDispatchButtonPressEvent in Hd.
    case_bool_decide as Hroute; [|done].
    destruct (handler_of cl) as [f|] eqn:Hf; [|done]. cbn in Hd.
    injection Hd as <-. cbn [pressed_id receiver pressed_handler].
    change (buttonRoute "A.save") with "A" in Hroute. rewrite <- Hroute. split; [done|].
    exists i, cl. by rewrite Hi, Hc, <- Hroute. }
  split; [|split; [exact Honly|]].
  - intros hd this i cl f Hin Hi Hc Hroute Hf.
    apply list_elem_of_omap. exists (hd, this). split; [done|].
    unfold dispatched. cbn [snd]. rewrite Hi. cbn. rewrite Hc. cbn.
    unfold _shouldDispatchButtonPressEvent. rewrite Hroute.
    rewrite bool_decide_eq_true_2 by done. by rewrite Hf.
  - intros p i cl Hin Hi Hc.
    destruct (Honly p Hin) as (_ & i' & cl' & Hi' & Hc' & Hroute & _).
    rewrite Hi in Hi'. injection Hi' as <-. rewrite Hc in Hc'. injection Hc' as <-.
    by rewrite Hroute.
Qed.

Lemma press_reaches_its_route_only_witness :
  listeners_ok sample_world
  ∧ ∃ w',
      emit "A.save" sample_world = (Ok tt, w')
      ∧ (∀ hd this i cl f,
           (hd, this) ∈ listeners sample_world →
           instances sample_world !! this = Some i →
           classes sample_world !! this_constructor i = Some cl →
           route cl = "A" → handler_of cl = Some f →
           Press this f "save" ∈ added (presses sample_world) (presses w'))
      ∧ (∀ p, p ∈ added (presses sample_world) (presses w') →
           pressed_id p = "save"
           ∧ ∃ i cl, instances sample_world !! receiver p = Some i
                     ∧ classes sample_world !! this_constructor i = Some cl
                     ∧ route cl = "A"
                     ∧ handler_of cl = Some (pressed_handler p))
      ∧ (∀ p i cl, p ∈ added (presses sample_world) (presses w') →
           instances sample_world !! receiver p = Some i →
           classes sample_world !! this_constructor i = Some cl →
           route cl ≠ "B").
Proof.
  split; [exact sample_listeners_ok|].
  apply (press_reaches_its_route_only sample_world). exact sample_listeners_ok.
Defined.

(** ** One subscription per instance *)

Lemma keeps_subscriptions_bind {A B} (m : ST world A) (f : A → ST world B) :
  keeps_subscriptions m → (∀ a, keeps_subscriptions (f a)) →
  keeps_subscriptions (m ≫= f).
Proof.
  intros Hm Hf w. specialize (Hm w). unfold mbind, ST_bind.
  destruct (m w) as [[a|e] w1]; [|done].
  specialize (Hf a w1). cbn [snd] in Hm.
  destruct Hm as (<- & <- & <- & <-). exact Hf.
Qed.

Lemma keeps_subscriptions_still {A} (m : ST world A) :
  (∀ w, (m w).2 = w) → keeps_subscriptions m.
Proof. intros Hm w. by rewrite Hm. Qed.

Lemma keeps_subscriptions_the_instance this : keeps_subscriptions (the_instance this).
Proof.
  apply keeps_subscriptions_still. intros w. unfold the_instance.
  by destruct (instances w !! this).
Qed.

Lemma keeps_subscriptions_the_class c : keeps_subscriptions (the_class c).
Proof.
  apply keeps_subscriptions_still. intros w. unfold the_class.
  by destruct (classes w !! c).
Qed.

Lemma keeps_subscriptions_on_heap {A} (m : ST (list object) A) :
  keeps_subscriptions (on_heap m).
Proof. intros w. unfold on_heap. by destruct (m (heap w)). Qed.

Lemma keeps_subscriptions_send r : keeps_subscriptions (send r).
Proof. by intros w. Qed.

Lemma keeps_subscriptions_updateNavigationBar `{Runtime} this bar :
  keeps_subscriptions (updateNavigationBar this bar).
Proof.
  unfold updateNavigationBar.
  apply keeps_subscriptions_bind; [apply keeps_subscriptions_the_instance|]. intros i.
  apply keeps_subscriptions_bind; [apply keeps_subscriptions_the_class|]. intros cl.
  apply keeps_subscriptions_bind; [apply keeps_subscriptions_on_heap|].
  intros [overlay bar']. apply keeps_subscriptions_send.
Qed.

Lemma keeps_subscriptions_resetNavigationBar `{Runtime} this :
  keeps_subscriptions (resetNavigationBar this).
Proof.
  unfold resetNavigationBar.
  apply keeps_subscriptions_bind; [apply keeps_subscriptions_the_instance|]. intros i.
  apply keeps_subscriptions_bind; [apply keeps_subscriptions_the_class|]. intros cl.
  apply keeps_subscriptions_bind; [apply keeps_subscriptions_on_heap|]. intros bar.
  apply keeps_subscriptions_updateNavigationBar.
Qed.

Lemma _getNavigationBar_run cl jsonPayload g :
  ∃ title,
    _getNavigationBar cl jsonPayload g
    = (Ok (VRef (length g)),
       g ++ [OObject (<["title" := title]> (own_props g (navigationOptions cl)))]).
Proof.
  unfold _getNavigationBar.
  unfold mbind at 1, ST_bind at 1, reading. cbn beta iota.
  unfold mbind at 1, ST_bind at 1. cbn beta iota.
  destruct (truthy (getDynamicTitle cl g jsonPayload)); [by eexists|].
  destruct (truthy (navigationOptions cl)) eqn:Ht; [|by eexists].
  rewrite (bind_Ok _ _ _ _ _ (get_Ok _ "title" g (truthy_not_nullish _ Ht))).
  by eexists.
Qed.

(** Localizing a bar and stripping [overlay] from the result returns,
    under the conditions of [localize_run]. *)
Lemma localize_without_Ok `{Runtime} routeName h x v :
  closed h → truthy v = true → closed_value (h ++ x) v →
  closed_value h (field (h ++ x) v "leftButton") →
  closed_value h (field (h ++ x) v "buttons") →
  leftButton_ok h (field (h ++ x) v "leftButton") →
  buttons_ok h (field (h ++ x) v "buttons") →
  ∃ out g,
    (bar ← _localizeNavigationBar routeName v; without "overlay" bar) (h ++ x)
    = (Ok out, g).
Proof.
  intros Hh Ht Hv HcL HcB HokL HokB.
  destruct (localize_run routeName h x v Hh Ht Hv HcL HcB HokL HokB)
    as (fresh & L' & B' & Hrun & _).
  eexists _, _. rewrite (bind_Ok _ _ _ _ _ Hrun). apply without_new_run.
Qed.

Lemma resetNavigationBar_Ok `{Runtime} w this i cl h x :
  instances w !! this = Some i →
  classes w !! this_constructor i = Some cl →
  heap w = h ++ x → closed h →
  closed_value h (navigationOptions cl) → bar_ok h (navigationOptions cl) →
  (resetNavigationBar this w).1 = Ok tt.
Proof.
  intros Hi Hc Hheap Hh Hopts [HokL HokB].
  unfold resetNavigationBar. receiver Hi Hc.
  destruct (_getNavigationBar_run cl VUndefined (heap w)) as [title Hbar].
  rewrite (bind_Ok _ _ _ _ _ (on_heap_Ok _ _ _ _ Hbar)).
  set (nb := OObject _) in *. set (w1 := with_heap (heap w ++ [nb]) w).
  unfold updateNavigationBar.
  assert (Hi1 : instances w1 !! this = Some i) by done.
  assert (Hc1 : classes w1 !! this_constructor i = Some cl) by done.
  receiver Hi1 Hc1.
  assert (Hown : own_props ((h ++ x) ++ [nb]) (VRef (length (h ++ x)))
                 = <["title" := title]> (own_props h (navigationOptions cl))).
  { cbn [own_props]. rewrite lookup_app_r by done. rewrite Nat.sub_diag.
    cbn [lookup list_lookup]. subst nb. rewrite Hheap. by rewrite own_props_frame. }
  assert (HfL : field ((h ++ x) ++ [nb]) (VRef (length (h ++ x))) "leftButton"
                = field h (navigationOptions cl) "leftButton").
  { unfold field. rewrite Hown. by rewrite lookup_insert_ne. }
  assert (HfB : field ((h ++ x) ++ [nb]) (VRef (length (h ++ x))) "buttons"
                = field h (navigationOptions cl) "buttons").
  { unfold field. rewrite Hown. by rewrite lookup_insert_ne. }
  destruct (localize_without_Ok (route cl) h (x ++ [nb]) (VRef (length (h ++ x))))
    as ([overlay bar'] & g & Hrun); try done.
  { cbn. rewrite !length_app. cbn. lia. }
  { rewrite app_assoc, HfL. by apply field_closed. }
  { rewrite app_assoc, HfB. by apply field_closed. }
  { by rewrite app_assoc, HfL. }
  { by rewrite app_assoc, HfB. }
  rewrite app_assoc, <- Hheap in Hrun.
  by rewrite (bind_Ok _ _ _ _ _ (on_heap_Ok _ w1 _ _ Hrun)).
Qed.

Lemma lookup_last {A} (l : list A) (x : A) : (l ++ [x]) !! length l = Some x.
Proof. by apply list_lookup_middle. Qed.

Lemma insert_last {A} (l : list A) (x y : A) : <[length l := y]> (l ++ [x]) = l ++ [y].
Proof. rewrite insert_app_r_alt by done. by rewrite Nat.sub_diag. Qed.

(** Lines 93-112 as they are written: constructing an instance of a
    screen class subscribes one more listener, bound to the new instance,
    whatever the listeners already subscribed; the handle is stored on
    the instance and the statics of the class, [headerListener] included,
    are left as they are.  Unmounting an instance removes the listeners
    of its own handle and no other.  (The payload of the props parses, and the
    navigation options of a class that resets its bar localize, so that
    the construction returns.) *)
Theorem constructor_subscribes `{Runtime} (w : world) (c : string) (cl : class)
    (jsonPayload : option string) (parsed : value) (x : list object) :
  classes w !! c = Some cl →
  parsed_props jsonPayload (heap w) = (Ok parsed, heap w ++ x) →
  (autoReset cl = true →
   closed (heap w) ∧ closed_value (heap w) (navigationOptions cl)
   ∧ bar_ok (heap w) (navigationOptions cl)) →
  ∃ w',
    constructor c jsonPayload w = (Ok (length (instances w)), w')
    ∧ listeners w' = listeners w ++ [(handles w, length (instances w))]
    ∧ instances w' = instances w ++ [Instance c (Some (handles w)) parsed]
    ∧ classes w' = classes w
    ∧ ∃ w'',
        componentWillUnmount (length (instances w)) w' = (Ok tt, w'')
        ∧ listeners w'' = filter (λ l, l.1 ≠ handles w) (listeners w')
        ∧ instances w'' = instances w' ∧ classes w'' = classes w'.
Proof.
  intros Hc Hparsed Hreset.
  set (this := length (instances w)).
  set (created := Instance c (Some (handles w)) parsed).
  assert (Hunmount : ∀ w', instances w' = instances w ++ [created] →
            ∃ w'', componentWillUnmount this w' = (Ok tt, w'')
                   ∧ listeners w'' = filter (λ l, l.1 ≠ handles w) (listeners w')
                   ∧ instances w'' = instances w' ∧ classes w'' = classes w').
  { intros w' Hi'. unfold componentWillUnmount.
    assert (Hthis : instances w' !! this = Some created)
      by (rewrite Hi'; apply lookup_last).
    rewrite (bind_Ok _ _ _ _ _ (the_instance_Ok _ _ _ Hthis)).
    by eexists. }
  unfold constructor. rewrite (bind_Ok _ _ _ _ _ (the_class_Ok _ _ _ Hc)).
  unfold mbind at 1, ST_bind at 1. cbn beta iota. fold this.
  set (w1 := with_instances _ w).
  assert (Hparsed1 : parsed_props jsonPayload (heap w1) = (Ok parsed, heap w ++ x))
    by done.
  rewrite (bind_Ok _ _ _ _ _ (on_heap_Ok _ _ _ _ Hparsed1)).
  set (w2 := with_heap _ w1).
  assert (Hi2 : instances w2 !! this = Some (Instance c None VUndefined))
    by apply lookup_last.
  rewrite (bind_Ok _ _ _ _ _ (the_instance_Ok _ _ _ Hi2)).
  unfold mbind at 1, ST_bind at 1, put_instance at 1. cbn beta iota.
  cbn [this_constructor this_headerListener].
  set (w3 := with_instances _ w2).
  assert (Hi3 : instances w3 !! this = Some (Instance c None parsed)).
  { subst w3 w2 w1. cbn [instances with_instances with_heap].
    subst this. rewrite insert_last. apply lookup_last. }
  rewrite (bind_Ok _ _ _ _ _ (the_instance_Ok _ _ _ Hi3)).
  cbn [this_constructor this_headerListener this_jsonProps].
  unfold mbind at 1, ST_bind at 1. unfold mbind at 1, ST_bind at 1.
  unfold addOnNavButtonClickEventListener at 1, put_instance at 1. cbn beta iota.
  set (w5 := with_instances _ _).
  assert (Hi5 : instances w5 = instances w ++ [created]).
  { subst w5 w3 w2 w1. cbn [instances with_instances with_heap with_listeners].
    subst this. by rewrite !insert_last. }
  assert (Hl5 : listeners w5 = listeners w ++ [(handles w, this)]) by done.
  assert (Hc5 : classes w5 = classes w) by done.
  destruct (autoReset cl).
  - destruct (Hreset eq_refl) as (Hh & Hopts & Hok).
    destruct (keeps_subscriptions_resetNavigationBar this w5) as (Hck & Hik & Hlk & _).
    assert (HresetOk : (resetNavigationBar this w5).1 = Ok tt).
    { eapply (resetNavigationBar_Ok w5 this created cl (heap w) x); try done.
      rewrite Hi5. apply lookup_last. }
    unfold mbind, ST_bind, mret, ST_ret.
    destruct (resetNavigationBar this w5) as [r w6]. cbn [fst snd] in *. subst r.
    exists w6.
    split; [done|]. split; [congruence|]. split; [congruence|]. split; [congruence|].
    apply Hunmount. congruence.
  - exists w5. unfold mbind, ST_bind, mret, ST_ret.
    split; [done|]. split; [done|]. split; [done|]. split; [done|].
    by apply Hunmount.
Qed.

Lemma constructor_subscribes_witness :
  classes sample_world !! "Main" = Some Component
  ∧ @parsed_props sample_runtime None (heap sample_world)
    = (Ok (VRef 6), heap sample_world ++ [OObject ∅])
  ∧ closed (heap sample_world)
  ∧ @bar_ok sample_runtime (heap sample_world) (navigationOptions Component)
  ∧ ∃ w',
      @constructor sample_runtime "Main" None sample_world
      = (Ok (length (instances sample_world)), w')
      ∧ listeners w'
        = listeners sample_world
            ++ [(handles sample_world, length (instances sample_world))]
      ∧ instances w'
        = instances sample_world ++ [Instance "Main" (Some (handles sample_world)) (VRef 6)]
      ∧ classes w' = classes sample_world
      ∧ ∃ w'',
          componentWillUnmount (length (instances sample_world)) w' = (Ok tt, w'')
          ∧ listeners w'' = filter (λ l, l.1 ≠ handles sample_world) (listeners w')
          ∧ instances w'' = instances w' ∧ classes w'' = classes w'.
Proof.
  split; [reflexivity|]. split; [reflexivity|]. split; [exact sample_heap_closed|].
  split; [exact sample_options_ok|].
  apply (@constructor_subscribes sample_runtime sample_world "Main" Component None
           (VRef 6) [OObject ∅]);
    [reflexivity | reflexivity |].
  intros _. split; [exact sample_heap_closed|]. split; [simpl; lia|].
  exact sample_options_ok.
Defined.

(** C3: the code at two constructions of one class.  After two
    instances of the class [Main] have been constructed, two listeners
    bound to instances of [Main] are subscribed, where the claim has one
    at most, and the static [headerListener] of the class, which line 84
    declares for the handle, holds none: the guard of line 96 and the
    assignment of line 97 go to the new instance ([this]), which never
    has a handle yet, not to the class ([this.constructor]). *)
Lemma two_instances_two_subscriptions :
  ∃ w2,
    (a ← @constructor sample_runtime "Main" None;
     b ← @constructor sample_runtime "Main" None;
     mret (a, b)) sample_world = (Ok (4, 5), w2)
    ∧ subscriptions_of w2 "Main" = [(2, 4); (3, 5)]
    ∧ ¬ length (subscriptions_of w2 "Main") ≤ 1
    ∧ headerListener <$> classes w2 !! "Main" = Some None.
Proof.
  eexists. split; [vm_compute; reflexivity|].
  split; [reflexivity|]. split; [|reflexivity].
  change (subscriptions_of _ "Main") with [(2, 4); (3, 5)]. simpl. lia.
Qed.

(** * Part III: further properties *)

(** ** Who owns a qualified id *)

Lemma lastIndexOf_negative c s :
  (JS.lastIndexOf c s < 0)%Z → c ∉ String.list_ascii_of_string s.
Proof.
  induction s as [|a s IH]; cbn [String.list_ascii_of_string JS.lastIndexOf].
  - intros _. apply not_elem_of_nil.
  - destruct (Z.leb_spec 0 (JS.lastIndexOf c s)) as [Hle|Hlt]; [lia|].
    destruct (Ascii.eqb_spec a c) as [->|Hne]; [lia|]. intros _.
    apply not_elem_of_cons. split; [congruence | by apply IH].
Qed.

Lemma lastIndexOf_split c s :
  (0 <= JS.lastIndexOf c s)%Z →
  ∃ p x, s = (p +:+ String c x)
         ∧ (c ∉ String.list_ascii_of_string x)
         ∧ JS.lastIndexOf c s = Z.of_nat (String.length p).
Proof.
  induction s as [|a s IH]; cbn [JS.lastIndexOf]; [lia|].
  destruct (Z.leb_spec 0 (JS.lastIndexOf c s)) as [Hle|Hlt].
  - intros _. destruct (IH Hle) as (p & x & -> & Hx & Hlen).
    exists (String a p), x. rewrite append_cons. split; [done|]. split; [done|].
    rewrite Hlen. cbn [String.length]. lia.
  - destruct (Ascii.eqb_spec a c) as [->|Hne]; [|lia]. intros _.
    exists "", s. split; [done|]. split; [by apply lastIndexOf_negative | done].
Qed.

Lemma buttonRoute_split buttonId :
  (∃ r x, buttonId = encode r x ∧ no_delimiter x ∧ buttonRoute buttonId = r)
  ∨ (no_delimiter buttonId ∧ buttonRoute buttonId = "").
Proof.
  destruct (Z.leb_spec 0 (JS.lastIndexOf delimiter buttonId)) as [Hle|Hlt].
  - left. destruct (lastIndexOf_split _ _ Hle) as (p & x & -> & Hx & _).
    exists p, x. split; [done|]. split; [done|]. by apply buttonRoute_encode.
  - right. split; [by apply lastIndexOf_negative|].
    unfold buttonRoute. destruct (Z.ltb_spec (-1) (JS.lastIndexOf delimiter buttonId)); [lia|done].
Qed.

Lemma encode_inj r x y : encode r x = encode r y → x = y.
Proof.
  unfold encode. induction r as [|a r IH].
  - rewrite !append_nil_l. change ("." +:+ x) with (String "." x).
    change ("." +:+ y) with (String "." y). congruence.
  - rewrite !append_cons. intros Heq. injection Heq as Heq. by apply IH.
Qed.

Lemma encode_has_delimiter r x : ¬ no_delimiter (encode r x).
Proof.
  unfold no_delimiter, encode. intros Hno. apply Hno. clear Hno.
  induction r as [|a r IH].
  - rewrite append_nil_l. change ("." +:+ x) with (String "." x).
    cbn [String.list_ascii_of_string]. apply list_elem_of_here.
  - rewrite append_cons. cbn [String.list_ascii_of_string].
    by apply list_elem_of_further.
Qed.

(** X1: a class registered as [route] owns a button id exactly when the
    id is [route], a delimiter and a local id free of the delimiter, or
    when the class has no route yet and the id has no delimiter at all. *)
Theorem owner_characterization (route buttonId : string) :
  _shouldDispatchButtonPressEvent route buttonId = true
  ↔ (∃ x, no_delimiter x ∧ buttonId = encode route x)
    ∨ (route = "" ∧ no_delimiter buttonId).
Proof.
  unfold _shouldDispatchButtonPressEvent. rewrite bool_decide_eq_true. split.
  - intros Hroute.
    destruct (buttonRoute_split buttonId) as [(r & x & -> & Hx & Hr)|[Hno Hr]].
    + left. exists x. split; [done|]. congruence.
    + right. split; [congruence | done].
  - intros [(x & Hx & ->)|[-> Hno]].
    + by apply buttonRoute_encode.
    + by destruct (buttonRoute_split buttonId)
        as [(r & x & -> & _ & _)|[_ Hr]]; [destruct (encode_has_delimiter r x)|].
Qed.

(** X2: a local id that holds a delimiter is not delivered to its own
    screen: the qualified id built from it is owned by another route. *)
Theorem delimiter_in_local_id_misroutes (route x : string) :
  delimiter ∈ String.list_ascii_of_string x →
  _shouldDispatchButtonPressEvent route (encode route x) = false.
Proof.
  intros Hx. unfold _shouldDispatchButtonPressEvent. apply bool_decide_eq_false.
  intros Hroute.
  destruct (buttonRoute_split (encode route x)) as [(r & y & Heq & Hy & Hr)|[Hno _]].
  - rewrite Hroute in Hr. subst r.
    apply encode_inj in Heq. subst y. by apply Hy.
  - by apply (encode_has_delimiter route x).
Qed.

Lemma delimiter_in_local_id_misroutes_witness :
  delimiter ∈ String.list_ascii_of_string "save.all"
  ∧ _shouldDispatchButtonPressEvent "checkout" (encode "checkout" "save.all") = false.
Proof.
  assert (Hin : delimiter ∈ String.list_ascii_of_string "save.all").
  { refine (bool_decide_unpack _ _). vm_compute. exact I. }
  split; [exact Hin | exact (delimiter_in_local_id_misroutes "checkout" "save.all" Hin)].
Defined.

(** ** A press reaches the handlers of its route with the local id *)

Lemma dispatched_encode w r x l :
  no_delimiter x → dispatched w (encode r x) l = expected_call w r x l.
Proof.
  intros Hx. unfold dispatched, expected_call.
  destruct (instances w !! l.2) as [i|]; [|done]. cbn [mbind option_bind].
  destruct (classes w !! this_constructor i) as [cl|]; [|done].
  cbn [mbind option_bind].
  unfold _shouldDispatchButtonPressEvent. rewrite (buttonRoute_encode r x Hx).
  case_bool_decide as Hr; case_bool_decide as Hr'; try congruence.
  subst r. by rewrite _unlocalizeButtonId_encode.
Qed.

Lemma omap_ext_all {A B} (f g : A → option B) (l : list A) :
  (∀ a, f a = g a) → omap f l = omap g l.
Proof.
  intros Hfg. induction l as [|a l IH]; [done|].
  cbn [omap list_omap]. by rewrite Hfg, IH.
Qed.

Lemma deliver_presses buttonId w sched :
  listeners_ok w → delivery_of w sched →
  ∃ w', deliver buttonId sched w = (Ok tt, w')
        ∧ presses w' = presses w ++ omap (dispatched w buttonId) sched.
Proof.
  intros Hok Hsched.
  assert (Hbound : Forall (λ l : handle * nat,
                     ∃ i cl, instances w !! l.2 = Some i
                             ∧ classes w !! this_constructor i = Some cl) sched).
  { apply Forall_forall. intros l Hl. apply Hsched in Hl.
    exact (proj1 (Forall_forall _ _) Hok l Hl). }
  destruct (emit_run buttonId w sched Hbound w eq_refl eq_refl)
    as (w' & Hrun & _ & _ & _ & _ & _ & _ & Hp).
  exists w'. split; [|done]. unfold deliver. by rewrite (bind_Ok _ _ _ _ _ Hrun).
Qed.

(** X3: whatever the route [r], hierarchical or not, and the local id
    [x] free of the delimiter, and however the event stream delivers the
    press of the qualified id [r.x] (to every subscribed listener at
    least once, in any order): at every subscribed listener whose class
    is registered as [r] the handler of that class is called with the
    local id [x], and every handler called is the one of a subscribed
    listener whose class is registered as [r], called with [x]. *)
Theorem press_round_trip (w : world) (r x : string) (sched : list (handle * nat)) :
  listeners_ok w → delivery_of w sched → no_delimiter x →
  ∃ w',
    deliver (encode r x) sched w = (Ok tt, w')
    ∧ (∀ hd this i cl f,
         (hd, this) ∈ listeners w →
         instances w !! this = Some i →
         classes w !! this_constructor i = Some cl →
         route cl = r → handler_of cl = Some f →
         Press this f x ∈ added (presses w) (presses w'))
    ∧ (∀ p, p ∈ added (presses w) (presses w') →
         pressed_id p = x
         ∧ ∃ hd i cl, (hd, receiver p) ∈ listeners w
                      ∧ instances w !! receiver p = Some i
                      ∧ classes w !! this_constructor i = Some cl
                      ∧ route cl = r
                      ∧ handler_of cl = Some (pressed_handler p)).
Proof.
  intros Hok Hsched Hx.
  destruct (deliver_presses (encode r x) w sched Hok Hsched) as (w' & Hrun & Hp).
  exists w'. split; [done|]. rewrite Hp, added_app.
  rewrite (omap_ext_all _ (expected_call w r x))
    by (intros l; by apply dispatched_encode).
  split.
  - intros hd this i cl f Hin Hi Hc Hroute Hf.
    apply list_elem_of_omap. exists (hd, this). split; [by apply Hsched|].
    unfold expected_call. cbn [snd]. rewrite Hi. cbn [mbind option_bind].
    rewrite Hc. cbn [mbind option_bind].
    rewrite bool_decide_eq_true_2 by done. by rewrite Hf.
  - intros p Hin. apply list_elem_of_omap in Hin as ([hd this] & Hl & Hd).
    apply Hsched in Hl. unfold expected_call in Hd. cbn [snd] in Hd.
    destruct (instances w !! this) as [i|] eqn:Hi; [|done]. cbn [mbind option_bind] in Hd.
    destruct (classes w !! this_constructor i) as [cl|] eqn:Hc; [|done].
    cbn [mbind option_bind] in Hd.
    case_bool_decide as Hroute; [|done].
    destruct (handler_of cl) as [f|] eqn:Hf; [|done]. cbn [mbind option_bind] in Hd.
    injection Hd as <-. cbn [pressed_id receiver pressed_handler].
    split; [done|]. exists hd, i, cl. by rewrite Hi, Hc.
Qed.

Lemma press_round_trip_witness :
  listeners_ok sample_world
  ∧ delivery_of sample_world [(1, 2); (0, 1); (1, 2)]
  ∧ no_delimiter "save"
  ∧ ∃ w',
      deliver (encode "B" "save") [(1, 2); (0, 1); (1, 2)] sample_world = (Ok tt, w')
      ∧ (∀ hd this i cl f,
           (hd, this) ∈ listeners sample_world →
           instances sample_world !! this = Some i →
           classes sample_world !! this_constructor i = Some cl →
           route cl = "B" → handler_of cl = Some f →
           Press this f "save" ∈ added (presses sample_world) (presses w'))
      ∧ (∀ p, p ∈ added (presses sample_world) (presses w') →
           pressed_id p = "save"
           ∧ ∃ hd i cl, (hd, receiver p) ∈ listeners sample_world
                        ∧ instances sample_world !! receiver p = Some i
                        ∧ classes sample_world !! this_constructor i = Some cl
                        ∧ route cl = "B"
                        ∧ handler_of cl = Some (pressed_handler p)).
Proof.
  assert (Hsave : no_delimiter "save").
  { unfold no_delimiter. refine (bool_decide_unpack _ _). vm_compute. exact I. }
  assert (Hsched : delivery_of sample_world [(1, 2); (0, 1); (1, 2)]).
  { intros l. cbn [listeners sample_world]. rewrite !elem_of_cons, !elem_of_nil. tauto. }
  split; [exact sample_listeners_ok|]. split; [exact Hsched|]. split; [exact Hsave|].
  exact (press_round_trip sample_world "B" "save" [(1, 2); (0, 1); (1, 2)]
           sample_listeners_ok Hsched Hsave).
Defined.

(** X4: at an instance whose class owns the pressed id, the method
    [onNavButtonPress] of the instance is called when the screen defines
    one, whatever its static handler; without it, the inherited static
    handler is called and warns on the console, naming the class and
    passing the local id; and with neither, the press changes nothing. *)
Theorem handler_precedence (w : world) (this : nat) (i : instance) (cl : class)
    (buttonId : string) :
  instances w !! this = Some i →
  classes w !! this_constructor i = Some cl →
  _shouldDispatchButtonPressEvent (route cl) buttonId = true →
  (prototype_onNavButtonPress cl = true →
   _handleNavButtonPress this buttonId w
   = (Ok tt,
      with_presses
        (presses w ++ [Press this OwnMethod (_unlocalizeButtonId (route cl) buttonId)])
        w))
  ∧ (prototype_onNavButtonPress cl = false →
     static_onNavButtonPress cl = Some BaseStatic →
     _handleNavButtonPress this buttonId w
     = (Ok tt,
        with_console
          (console w
             ++ [("`onNavButtonPress(buttonId)` was not overriden in "
                    +:+ this_constructor i
                    +:+ ", but a button press event was fired.",
                  Some (_unlocalizeButtonId (route cl) buttonId))])
          (with_presses
             (presses w
                ++ [Press this BaseStatic (_unlocalizeButtonId (route cl) buttonId)])
             w)))
  ∧ (prototype_onNavButtonPress cl = false →
     static_onNavButtonPress cl = None →
     _handleNavButtonPress this buttonId w = (Ok tt, w)).
Proof.
  intros Hi Hc Hown. unfold _handleNavButtonPress. receiver Hi Hc.
  rewrite Hown. unfold handler_of. split; [|split].
  - intros ->. done.
  - intros -> ->. unfold call.
    unfold mbind at 1, ST_bind at 1. cbn beta iota. unfold onNavButtonPress.
    by rewrite (bind_Ok _ _ _ _ _ (the_instance_Ok (with_presses _ w) this i Hi)).
  - intros -> ->. done.
Qed.

Lemma handler_precedence_witness :
  instances sample_world !! 1 = Some (Instance "ScreenA" (Some 0) VUndefined)
  ∧ classes sample_world !! "ScreenA" = Some ScreenA
  ∧ _shouldDispatchButtonPressEvent (route ScreenA) "A.save" = true
  ∧ (prototype_onNavButtonPress ScreenA = true →
     _handleNavButtonPress 1 "A.save" sample_world
     = (Ok tt,
        with_presses
          (presses sample_world
             ++ [Press 1 OwnMethod (_unlocalizeButtonId (route ScreenA) "A.save")])
          sample_world))
  ∧ (prototype_onNavButtonPress ScreenA = false →
     static_onNavButtonPress ScreenA = Some BaseStatic →
     _handleNavButtonPress 1 "A.save" sample_world
     = (Ok tt,
        with_console
          (console sample_world
             ++ [("`onNavButtonPress(buttonId)` was not overriden in "
                    +:+ "ScreenA" +:+ ", but a button press event was fired.",
                  Some (_unlocalizeButtonId (route ScreenA) "A.save"))])
          (with_presses
             (presses sample_world
                ++ [Press 1 BaseStatic (_unlocalizeButtonId (route ScreenA) "A.save")])
             sample_world)))
  ∧ (prototype_onNavButtonPress ScreenA = false →
     static_onNavButtonPress ScreenA = None →
     _handleNavButtonPress 1 "A.save" sample_world = (Ok tt, sample_world)).
Proof.
  split; [reflexivity|]. split; [reflexivity|]. split; [reflexivity|].
  apply (handler_precedence sample_world 1 (Instance "ScreenA" (Some 0) VUndefined)
           ScreenA "A.save"); reflexivity.
Defined.

(** ** The rest of the validation block *)

Lemma size_not_below_1 (screens : gmap string string) :
  screens ≠ ∅ → bool_decide (size screens < 1) = false.
Proof.
  intros Hne. apply bool_decide_eq_false. intros Hlt. apply Hne.
  apply map_size_empty_iff. lia.
Qed.

Lemma validation_accepts_helper (screens : gmap string string) (name target : string) :
  name ≠ "" → screens !! name = Some target →
  validated (AppNavigator (Some screens)) (Some name) = Ok target.
Proof.
  intros Hname Hlook. cbn [validated]. rewrite size_not_below_1.
  - rewrite bool_decide_eq_false_2 by done. by rewrite Hlook.
  - intros ->. by rewrite lookup_empty in Hlook.
Qed.

(** X5: the validation block lets a call through exactly when an
    [AppNavigator] is attached whose screens hold the given name, the
    name not being empty; it then gives the class registered under it. *)
Theorem validation_accepts (nav : navigator) (screenName : option string)
    (target : string) :
  validated nav screenName = Ok target
  ↔ ∃ screens name,
      nav = AppNavigator (Some screens) ∧ screenName = Some name
      ∧ name ≠ "" ∧ screens !! name = Some target.
Proof.
  split.
  - destruct nav as [| |[screens|]]; try done. cbn [validated].
    case_bool_decide as Hsize; [done|].
    destruct screenName as [name|]; [|done].
    case_bool_decide as Hname; [done|].
    destruct (screens !! name) as [t|] eqn:Hlook; [|done].
    intros [= ->]. by exists screens, name.
  - intros (screens & name & -> & -> & Hname & Hlook).
    by apply validation_accepts_helper.
Qed.

(** X6: with screens registered and no screen name, or an empty one,
    [navigateInternal] and [backTo] throw [errors.noScreenName] and leave
    the world as it is. *)
Theorem screen_name_required `{Runtime} (w : world) (this : nat) (i : instance)
    (cl : class) (screens : gmap string string) (screenName : option string)
    (jsonPayload : value) :
  instances w !! this = Some i →
  classes w !! this_constructor i = Some cl →
  appNavigator cl = AppNavigator (Some screens) → screens ≠ ∅ →
  screenName = None ∨ screenName = Some "" →
  navigateInternal this screenName jsonPayload w = (Throw noScreenName, w)
  ∧ backTo this screenName w = (Throw noScreenName, w).
Proof.
  intros Hi Hc Hnav Hne Hname.
  assert (Hv : validated (appNavigator cl) screenName = Throw noScreenName).
  { rewrite Hnav. cbn [validated]. rewrite size_not_below_1 by done.
    by destruct Hname as [-> | ->]. }
  split; [by eapply navigateInternal_invalid | by eapply backTo_invalid].
Qed.

(** X7: with screens registered, a name that is not one of them makes
    [navigateInternal] and [backTo] throw [errors.invalidScreenName] of
    that name and leave the world as it is. *)
Theorem unknown_screen_name `{Runtime} (w : world) (this : nat) (i : instance)
    (cl : class) (screens : gmap string string) (name : string)
    (jsonPayload : value) :
  instances w !! this = Some i →
  classes w !! this_constructor i = Some cl →
  appNavigator cl = AppNavigator (Some screens) → screens ≠ ∅ →
  name ≠ "" → screens !! name = None →
  navigateInternal this (Some name) jsonPayload w = (Throw (invalidScreenName name), w)
  ∧ backTo this (Some name) w = (Throw (invalidScreenName name), w).
Proof.
  intros Hi Hc Hnav Hne Hname Hlook.
  assert (Hv : validated (appNavigator cl) (Some name) = Throw (invalidScreenName name)).
  { rewrite Hnav. cbn [validated]. rewrite size_not_below_1 by done.
    rewrite bool_decide_eq_false_2 by done. by rewrite Hlook. }
  split; [by eapply navigateInternal_invalid | by eapply backTo_invalid].
Qed.

(** X8: [backTo] of a registered screen name sends one request, back to
    the route of the class registered under the name, which need not be
    the name; it allocates nothing and changes nothing else. *)
Theorem backTo_registered (w : world) (this : nat) (i : instance) (cl : class)
    (screens : gmap string string) (name target : string) (nav : class) :
  instances w !! this = Some i →
  classes w !! this_constructor i = Some cl →
  appNavigator cl = AppNavigator (Some screens) →
  name ≠ "" → screens !! name = Some target →
  classes w !! target = Some nav →
  backTo this (Some name) w
  = (Ok tt, with_requests (requests w ++ [Back (Some (route nav))]) w).
Proof.
  intros Hi Hc Hnav Hname Hlook Htarget.
  assert (Hv : validated (appNavigator cl) (Some name) = Ok target).
  { rewrite Hnav. by apply validation_accepts_helper. }
  unfold backTo. receiver Hi Hc.
  unfold of_result. rewrite Hv.
  unfold mbind at 1, ST_bind at 1. cbn beta iota.
  by rewrite (bind_Ok _ _ _ _ _ (the_class_Ok _ _ _ Htarget)).
Qed.

Lemma sample_screens_not_empty : sample_screens ≠ ∅.
Proof. intros Heq. by apply (f_equal (lookup "Cart")) in Heq. Qed.

Lemma screen_name_required_witness :
  instances (sample_world_with sample_navigator) !! 3
  = Some (Instance "Main" None VUndefined)
  ∧ classes (sample_world_with sample_navigator) !! "Main"
    = Some (with_appNavigator sample_navigator Component)
  ∧ sample_screens ≠ ∅
  ∧ @navigateInternal sample_runtime 3 (Some "") VUndefined
      (sample_world_with sample_navigator)
    = (Throw noScreenName, sample_world_with sample_navigator)
  ∧ backTo 3 (Some "") (sample_world_with sample_navigator)
    = (Throw noScreenName, sample_world_with sample_navigator).
Proof.
  split; [reflexivity|]. split; [reflexivity|].
  split; [exact sample_screens_not_empty|].
  apply (@screen_name_required sample_runtime (sample_world_with sample_navigator) 3
           (Instance "Main" None VUndefined)
           (with_appNavigator sample_navigator Component) sample_screens
           (Some "") VUndefined);
    [reflexivity | reflexivity | reflexivity | exact sample_screens_not_empty
    | right; reflexivity].
Defined.

Lemma unknown_screen_name_witness :
  instances (sample_world_with sample_navigator) !! 3
  = Some (Instance "Main" None VUndefined)
  ∧ classes (sample_world_with sample_navigator) !! "Main"
    = Some (with_appNavigator sample_navigator Component)
  ∧ sample_screens ≠ ∅ ∧ "unknown" ≠ "" ∧ sample_screens !! "unknown" = None
  ∧ @navigateInternal sample_runtime 3 (Some "unknown") VUndefined
      (sample_world_with sample_navigator)
    = (Throw (invalidScreenName "unknown"), sample_world_with sample_navigator)
  ∧ backTo 3 (Some "unknown") (sample_world_with sample_navigator)
    = (Throw (invalidScreenName "unknown"), sample_world_with sample_navigator).
Proof.
  split; [reflexivity|]. split; [reflexivity|].
  split; [exact sample_screens_not_empty|]. split; [discriminate|].
  split; [reflexivity|].
  apply (@unknown_screen_name sample_runtime (sample_world_with sample_navigator) 3
           (Instance "Main" None VUndefined)
           (with_appNavigator sample_navigator Component) sample_screens
           "unknown" VUndefined);
    [reflexivity | reflexivity | reflexivity | exact sample_screens_not_empty
    | discriminate | reflexivity].
Defined.

Lemma backTo_registered_witness :
  instances (sample_world_with sample_navigator) !! 3
  = Some (Instance "Main" None VUndefined)
  ∧ classes (sample_world_with sample_navigator) !! "Main"
    = Some (with_appNavigator sample_navigator Component)
  ∧ sample_screens !! "Cart" = Some "Checkout"
  ∧ classes (sample_world_with sample_navigator) !! "Checkout" = Some Checkout
  ∧ backTo 3 (Some "Cart") (sample_world_with sample_navigator)
    = (Ok tt,
       with_requests
         (requests (sample_world_with sample_navigator) ++ [Back (Some (route Checkout))])
         (sample_world_with sample_navigator)).
Proof.
  split; [reflexivity|]. split; [reflexivity|]. split; [reflexivity|].
  split; [reflexivity|].
  apply (backTo_registered (sample_world_with sample_navigator) 3
           (Instance "Main" None VUndefined)
           (with_appNavigator sample_navigator Component) sample_screens
           "Cart" "Checkout" Checkout);
    [reflexivity | reflexivity | reflexivity | discriminate | reflexivity | reflexivity].
Defined.

(** ** More on the localizer *)

Lemma localized_bar_props (h fresh : list object) (props : gmap string value) :
  own_props ((h ++ fresh) ++ [OObject props]) (VRef (length (h ++ fresh))) = props.
Proof. cbn [own_props]. rewrite lookup_app_r by done. by rewrite Nat.sub_diag. Qed.

(** X9: the left button of a bar is localized to a new object with the
    properties of the button, but for its [id]: a truthy id is qualified
    by the route, and a falsy one (the empty string, [null]) becomes
    [undefined] like a missing one. *)
Theorem leftButton_localized `{Runtime} (routeName : string) (h : list object)
    (navigationBar leftButton : value) :
  closed h → closed_value h navigationBar → truthy navigationBar = true →
  field h navigationBar "leftButton" = leftButton →
  truthy leftButton = true →
  bar_ok h navigationBar →
  ∃ bar h' l,
    _localizeNavigationBar routeName navigationBar h = (Ok bar, h')
    ∧ field h' bar "leftButton" = VRef l
    ∧ h !! l = None
    ∧ (truthy (field h leftButton "id") = true →
       ∃ s, ToString (field h leftButton "id") = Ok s
            ∧ field h' (VRef l) "id" = VString (encode routeName s))
    ∧ (truthy (field h leftButton "id") = false →
       field h' (VRef l) "id" = VUndefined)
    ∧ ∀ key, key ≠ "id" →
             own_props h' (VRef l) !! key = own_props h leftButton !! key.
Proof.
  intros Hh Hv Ht HL HtL Hok.
  destruct (localize_run_here routeName h navigationBar Hh Hv Ht Hok)
    as (fresh & L' & B' & Hrun & HrelL & _).
  rewrite HL in HrelL. unfold localizes_leftButton in HrelL. rewrite HtL in HrelL.
  destruct HrelL as (l & -> & Hl & Hcopy).
  set (h' := (h ++ fresh) ++ _) in Hrun.
  exists (VRef (length (h ++ fresh))), h', l. split; [exact Hrun|].
  assert (Hprops : own_props h' (VRef l)
                   = <["id" := if truthy (field h leftButton "id")
                               then VString (encode routeName
                                               (as_string (field h leftButton "id")))
                               else VUndefined]> (own_props h leftButton)).
  { unfold h'. cbn [own_props]. by rewrite (lookup_app_l_Some _ _ _ _ Hcopy). }
  split; [|split; [|split; [|split]]].
  - unfold field, h'. rewrite localized_bar_props.
    rewrite lookup_insert_ne by done. by rewrite lookup_insert_eq.
  - by apply lookup_ge_None_2.
  - intros Hid. exists (as_string (field h leftButton "id")). split.
    + apply as_string_Ok. destruct Hok as [HokL _]. rewrite HL in HokL. by apply HokL.
    + unfold field at 1. rewrite Hprops, lookup_insert_eq. by rewrite Hid.
  - intros Hid. unfold field at 1. rewrite Hprops, lookup_insert_eq. by rewrite Hid.
  - intros key Hkey. rewrite Hprops. by rewrite lookup_insert_ne.
Qed.

Lemma leftButton_localized_witness :
  closed sample_heap
  ∧ field sample_heap (VRef 5) "leftButton" = VRef 4
  ∧ @bar_ok sample_runtime sample_heap (VRef 5)
  ∧ ∃ bar h' l,
      @_localizeNavigationBar sample_runtime "checkout" (VRef 5) sample_heap = (Ok bar, h')
      ∧ field h' bar "leftButton" = VRef l
      ∧ sample_heap !! l = None
      ∧ (truthy (field sample_heap (VRef 4) "id") = true →
         ∃ s, @ToString sample_runtime (field sample_heap (VRef 4) "id") = Ok s
              ∧ field h' (VRef l) "id" = VString (encode "checkout" s))
      ∧ (truthy (field sample_heap (VRef 4) "id") = false →
         field h' (VRef l) "id" = VUndefined)
      ∧ ∀ key, key ≠ "id" →
               own_props h' (VRef l) !! key = own_props sample_heap (VRef 4) !! key.
Proof.
  split; [exact sample_heap_closed|]. split; [reflexivity|].
  split; [exact sample_bar_ok|].
  apply (@leftButton_localized sample_runtime "checkout" sample_heap (VRef 5) (VRef 4));
    [exact sample_heap_closed | simpl; lia | reflexivity | reflexivity
    | reflexivity | exact sample_bar_ok].
Defined.

(** X10: the localizer keeps every property of the bar but [leftButton]
    and [buttons], [title] and [overlay] included; and a bar without
    left button, or without buttons, gets the property with the value
    [undefined]. *)
Theorem localize_keeps_the_rest `{Runtime} (routeName : string) (h : list object)
    (navigationBar : value) :
  closed h → closed_value h navigationBar → truthy navigationBar = true →
  bar_ok h navigationBar →
  ∃ bar h',
    _localizeNavigationBar routeName navigationBar h = (Ok bar, h')
    ∧ (∀ key, key ≠ "leftButton" → key ≠ "buttons" →
              own_props h' bar !! key = own_props h navigationBar !! key)
    ∧ (truthy (field h navigationBar "leftButton") = false →
       own_props h' bar !! "leftButton" = Some VUndefined)
    ∧ (truthy (field h navigationBar "buttons") = false →
       own_props h' bar !! "buttons" = Some VUndefined).
Proof.
  intros Hh Hv Ht Hok.
  destruct (localize_run_here routeName h navigationBar Hh Hv Ht Hok)
    as (fresh & L' & B' & Hrun & HrelL & HrelB).
  eexists _, _. split; [exact Hrun|]. rewrite localized_bar_props.
  split; [|split].
  - intros key HkL HkB. by rewrite !lookup_insert_ne.
  - intros HtL. unfold localizes_leftButton in HrelL. rewrite HtL in HrelL. subst L'.
    rewrite lookup_insert_ne by done. by rewrite lookup_insert_eq.
  - intros HtB. unfold localizes_buttons in HrelB. rewrite HtB in HrelB. subst B'.
    by rewrite lookup_insert_eq.
Qed.

Lemma localize_keeps_the_rest_witness :
  closed sample_heap
  ∧ @bar_ok sample_runtime sample_heap (VRef 1)
  ∧ ∃ bar h',
      @_localizeNavigationBar sample_runtime "main" (VRef 1) sample_heap = (Ok bar, h')
      ∧ (∀ key, key ≠ "leftButton" → key ≠ "buttons" →
                own_props h' bar !! key = own_props sample_heap (VRef 1) !! key)
      ∧ (truthy (field sample_heap (VRef 1) "leftButton") = false →
         own_props h' bar !! "leftButton" = Some VUndefined)
      ∧ (truthy (field sample_heap (VRef 1) "buttons") = false →
         own_props h' bar !! "buttons" = Some VUndefined).
Proof.
  split; [exact sample_heap_closed|]. split; [exact sample_options_ok|].
  apply (@localize_keeps_the_rest sample_runtime "main" sample_heap (VRef 1));
    [exact sample_heap_closed | simpl; lia | reflexivity | exact sample_options_ok].
Defined.

(** ** When the localizer throws *)

Lemma bind_Ok_inv {S A B} (m : ST S A) (f : A → ST S B) s :
  is_Ok ((m ≫= f) s).1 → ∃ a s', m s = (Ok a, s') ∧ is_Ok (f a s').1.
Proof.
  unfold mbind, ST_bind. destruct (m s) as [[a|e] s']; [|done].
  intros Hf. by exists a, s'.
Qed.

Lemma qualified_Ok_inv `{Runtime} routeName id h :
  is_Ok (qualified routeName id h).1 → is_Ok (ToString id).
Proof.
  unfold qualified, of_result, mbind, ST_bind. by destruct (ToString id).
Qed.

Lemma localized_button_Ok_inv `{Runtime} routeName button g :
  is_Ok (localized_button routeName button g).1 → button_ok g button.
Proof.
  unfold localized_button, button_ok.
  unfold mbind at 1, ST_bind at 1, reading. cbn beta iota.
  intros (id & g' & Hget & Hrest)%bind_Ok_inv.
  unfold get in Hget. destruct (nullish button); [done|].
  injection Hget as <- <-. split; [done|].
  apply bind_Ok_inv in Hrest as (id' & g' & Hq & _).
  apply (qualified_Ok_inv routeName _ g). unfold field. by rewrite Hq.
Qed.

Lemma buttons_Ok_inv `{Runtime} routeName h elems :
  Forall (closed_value h) elems →
  ∀ x, is_Ok (mapM (localized_button routeName) elems (h ++ x)).1 →
       Forall (button_ok h) elems.
Proof.
  induction elems as [|button elems IH]; intros Hc x Hrun; [done|].
  apply Forall_cons in Hc as [Hc Hcs]. cbn [mapM] in Hrun.
  apply bind_Ok_inv in Hrun as (b' & g' & Hb & Hrest).
  assert (Hok : button_ok (h ++ x) button).
  { apply (localized_button_Ok_inv routeName). by rewrite Hb. }
  rewrite (localized_button_run routeName button (h ++ x) Hok) in Hb.
  injection Hb as <- <-.
  apply bind_Ok_inv in Hrest as (bs & g'' & Hbs & _).
  rewrite <- app_assoc in Hbs.
  constructor.
  - destruct Hok as [Hn Hid]. split; [done|]. by rewrite field_frame in Hid.
  - apply (IH Hcs (x ++ [button_copy routeName (h ++ x) button])). by rewrite Hbs.
Qed.

Lemma localize_Ok_inv `{Runtime} routeName h v :
  closed h → closed_value h v → truthy v = true →
  is_Ok (_localizeNavigationBar routeName v h).1 → bar_ok h v.
Proof.
  intros Hh Hv Ht. unfold _localizeNavigationBar. rewrite Ht. cbn [negb].
  unfold mbind at 1, ST_bind at 1, reading. cbn beta iota.
  rewrite (bind_Ok _ _ _ _ _ (get_Ok v "leftButton" h (truthy_not_nullish _ Ht))).
  set (L := field h v "leftButton"). set (B := field h v "buttons").
  intros (L' & g1 & Hleft & Hrest)%bind_Ok_inv.
  assert (HokL : leftButton_ok h L).
  { intros HtL Hid. rewrite HtL in Hleft. unfold localized_leftButton in Hleft.
    unfold mbind at 1, ST_bind at 1, reading in Hleft. cbn beta iota in Hleft.
    rewrite (bind_Ok _ _ _ _ _ (get_Ok L "id" h (truthy_not_nullish _ HtL))) in Hleft.
    rewrite Hid in Hleft.
    destruct (ToString (field h L "id")) as [s|e] eqn:Hs; [done|].
    unfold qualified, of_result in Hleft. unfold mbind, ST_bind in Hleft.
    rewrite Hs in Hleft. discriminate. }
  split; [exact HokL|]. fold B.
  assert (Hg1 : ∃ fl, g1 = h ++ fl).
  { destruct (truthy L) eqn:HtL.
    - rewrite (localized_leftButton_run routeName L h HtL HokL) in Hleft.
      injection Hleft as <- <-. by eexists.
    - injection Hleft as <- <-. exists []. by rewrite app_nil_r. }
  destruct Hg1 as [fl ->].
  assert (HgetB : get v "buttons" (h ++ fl) = (Ok B, h ++ fl)).
  { rewrite get_Ok by (by apply truthy_not_nullish). unfold B. by rewrite field_frame. }
  rewrite (bind_Ok _ _ _ _ _ HgetB) in Hrest.
  apply bind_Ok_inv in Hrest as (B' & g2 & Hbuttons & _).
  intros HtB. rewrite HtB in Hbuttons.
  assert (HcB : closed_value h B) by (by apply field_closed).
  assert (Hrun : is_Ok ((elems ← elements B;
                         elems' ← mapM (localized_button routeName) elems;
                         new (OArray elems')) (h ++ fl)).1) by (by rewrite Hbuttons).
  apply bind_Ok_inv in Hrun as (elems & g3 & Hel & Hmap).
  unfold elements in Hel. destruct B as [| | | |l]; try done.
  simpl in HcB. rewrite lookup_app_l in Hel by done.
  destruct (h !! l) as [[props|elems0]|] eqn:Hl; try done.
  injection Hel as <- <-.
  exists l, elems0. split; [done|]. split; [done|].
  apply bind_Ok_inv in Hmap as (elems' & g4 & Hmap & _).
  apply (buttons_Ok_inv routeName h elems0 (elements_closed h l elems0 Hh Hl) fl).
  by rewrite Hmap.
Qed.

(** X11: on a truthy bar the localizer returns exactly when the id of
    the left button, if it has one, converts to a string, and the
    buttons, if there are any, are an array of values other than
    [undefined] and [null] whose ids convert; otherwise it throws. *)
Theorem localize_returns_iff `{Runtime} (routeName : string) (h : list object)
    (navigationBar : value) :
  closed h → closed_value h navigationBar → truthy navigationBar = true →
  is_Ok (_localizeNavigationBar routeName navigationBar h).1
  ↔ bar_ok h navigationBar.
Proof.
  intros Hh Hv Ht. split.
  - by apply localize_Ok_inv.
  - intros Hok.
    destruct (localize_run_here routeName h navigationBar Hh Hv Ht Hok)
      as (fresh & L' & B' & Hrun & _).
    by rewrite Hrun.
Qed.

Lemma localize_returns_iff_witness :
  closed sample_heap
  ∧ (is_Ok (@_localizeNavigationBar sample_runtime "checkout" (VRef 5) sample_heap).1
     ↔ @bar_ok sample_runtime sample_heap (VRef 5)).
Proof.
  split; [exact sample_heap_closed|].
  apply (@localize_returns_iff sample_runtime "checkout" sample_heap (VRef 5));
    [exact sample_heap_closed | simpl; lia | reflexivity].
Defined.

(** X12: when the [buttons] of a bar are there but are not an array (a
    string, a plain object), the localizer throws a [TypeError], the left
    button being one it can localize. *)
Theorem buttons_not_an_array `{Runtime} (routeName : string) (h : list object)
    (navigationBar : value) :
  closed h → closed_value h navigationBar → truthy navigationBar = true →
  leftButton_ok h (field h navigationBar "leftButton") →
  truthy (field h navigationBar "buttons") = true →
  is_array h (field h navigationBar "buttons") = false →
  (_localizeNavigationBar routeName navigationBar h).1 = Throw TypeError.
Proof.
  intros Hh Hv Ht HokL HtB Harr. unfold _localizeNavigationBar. rewrite Ht. cbn [negb].
  unfold mbind at 1, ST_bind at 1, reading. cbn beta iota.
  rewrite (bind_Ok _ _ _ _ _ (get_Ok _ "leftButton" h (truthy_not_nullish _ Ht))).
  set (L := field h navigationBar "leftButton") in *.
  set (B := field h navigationBar "buttons") in *.
  assert (Hleft : ∃ L' fl,
    (if truthy L then localized_leftButton routeName L else mret VUndefined) h
    = (Ok L', h ++ fl)).
  { destruct (truthy L) eqn:HtL.
    - eexists _, _. by apply localized_leftButton_run.
    - exists VUndefined, []. by rewrite app_nil_r. }
  destruct Hleft as (L' & fl & Hleft). rewrite (bind_Ok _ _ _ _ _ Hleft).
  assert (HgetB : get navigationBar "buttons" (h ++ fl) = (Ok B, h ++ fl)).
  { rewrite get_Ok by (by apply truthy_not_nullish). unfold B. by rewrite field_frame. }
  rewrite (bind_Ok _ _ _ _ _ HgetB). rewrite HtB.
  assert (Hel : elements B (h ++ fl) = (Throw TypeError, h ++ fl)).
  { assert (HcB : closed_value h B) by (by apply field_closed).
    unfold elements. unfold is_array in Harr.
    destruct B as [| | | |l]; try done. simpl in HcB.
    rewrite lookup_app_l by done. by destruct (h !! l) as [[|]|]. }
  rewrite (bind_Throw _ _ _ _ _ (bind_Throw _ _ _ _ _ Hel)). done.
Qed.

Lemma buttons_not_an_array_witness :
  closed sample_heap_bad
  ∧ truthy (field sample_heap_bad (VRef 6) "buttons") = true
  ∧ is_array sample_heap_bad (field sample_heap_bad (VRef 6) "buttons") = false
  ∧ (@_localizeNavigationBar sample_runtime "cart" (VRef 6) sample_heap_bad).1
    = Throw TypeError.
Proof.
  assert (Hclosed : closed sample_heap_bad).
  { apply (@bool_decide_unpack _ (closed_dec sample_heap_bad)). vm_compute. exact I. }
  split; [exact Hclosed|]. split; [reflexivity|]. split; [reflexivity|].
  apply (@buttons_not_an_array sample_runtime "cart" sample_heap_bad (VRef 6));
    [exact Hclosed | simpl; lia | reflexivity | | reflexivity | reflexivity].
  intros Hleft. vm_compute in Hleft. discriminate.
Defined.

(** ** An update without a bar *)

(** X13: [updateNavigationBar] of no bar ([undefined], [null] or another
    falsy value) does not throw: it sends one update whose path is the
    route and whose bar is a new object without any property. *)
Theorem update_without_bar `{Runtime} (w : world) (this : nat) (i : instance)
    (cl : class) (bar : value) :
  instances w !! this = Some i →
  classes w !! this_constructor i = Some cl →
  truthy bar = false →
  ∃ sent w',
    updateNavigationBar this bar w = (Ok tt, w')
    ∧ requests w' = requests w ++ [Update (route cl) sent]
    ∧ own_props (heap w') sent = ∅
    ∧ (∃ l, sent = VRef l ∧ heap w !! l = None ∧ heap w' !! l = Some (OObject ∅))
    ∧ classes w' = classes w ∧ instances w' = instances w
    ∧ listeners w' = listeners w.
Proof.
  intros Hi Hc Ht. unfold updateNavigationBar. receiver Hi Hc.
  assert (Hrun : (localized ← _localizeNavigationBar (route cl) bar;
                  without "overlay" localized) (heap w)
                 = (Ok (VUndefined, VRef (length (heap w ++ [OObject ∅]))),
                    (heap w ++ [OObject ∅]) ++ [OObject ∅])).
  { assert (Hloc : _localizeNavigationBar (route cl) bar (heap w)
                   = (Ok (VRef (length (heap w))), heap w ++ [OObject ∅]))
      by (unfold _localizeNavigationBar; by rewrite Ht).
    rewrite (bind_Ok _ _ _ _ _ Hloc). rewrite without_new_run.
    by rewrite delete_empty, lookup_empty. }
  rewrite (bind_Ok _ _ _ _ _ (on_heap_Ok _ _ _ _ Hrun)).
  eexists _, _. split; [reflexivity|]. split; [done|].
  cbn [heap with_requests with_heap send snd].
  split; [|split; [|done]].
  - cbn [own_props]. rewrite lookup_app_r by done. by rewrite Nat.sub_diag.
  - eexists. split; [done|]. split.
    + apply lookup_ge_None_2. rewrite length_app. lia.
    + rewrite lookup_app_r by done. by rewrite Nat.sub_diag.
Qed.

Lemma update_without_bar_witness :
  instances sample_world !! 0 = Some (Instance "Checkout" None VUndefined)
  ∧ classes sample_world !! "Checkout" = Some Checkout
  ∧ truthy VUndefined = false
  ∧ ∃ sent w',
      @updateNavigationBar sample_runtime 0 VUndefined sample_world = (Ok tt, w')
      ∧ requests w' = requests sample_world ++ [Update (route Checkout) sent]
      ∧ own_props (heap w') sent = ∅
      ∧ (∃ l, sent = VRef l ∧ heap sample_world !! l = None
              ∧ heap w' !! l = Some (OObject ∅))
      ∧ classes w' = classes sample_world ∧ instances w' = instances sample_world
      ∧ listeners w' = listeners sample_world.
Proof.
  split; [reflexivity|]. split; [reflexivity|]. split; [reflexivity|].
  apply (@update_without_bar sample_runtime sample_world 0
           (Instance "Checkout" None VUndefined) Checkout VUndefined); reflexivity.
Defined.

(** ** The bar of a screen class *)

Lemma falsy_own_props h v : truthy v = false → own_props h v = ∅.
Proof.
  destruct v as [| | |s|]; try done. cbn [truthy own_props].
  intros Hs. apply negb_false_iff, bool_decide_eq_true in Hs. by subst s.
Qed.

Lemma _getNavigationBar_title cl jsonPayload g :
  _getNavigationBar cl jsonPayload g
  = (Ok (VRef (length g)),
     g ++ [OObject (<["title" := if truthy (getDynamicTitle cl g jsonPayload)
                                 then getDynamicTitle cl g jsonPayload
                                 else field g (navigationOptions cl) "title"]>
                      (own_props g (navigationOptions cl)))]).
Proof.
  unfold _getNavigationBar.
  unfold mbind at 1, ST_bind at 1, reading. cbn beta iota.
  unfold mbind at 1, ST_bind at 1. cbn beta iota.
  destruct (truthy (getDynamicTitle cl g jsonPayload)); [done|].
  destruct (truthy (navigationOptions cl)) eqn:Ht.
  - by rewrite (bind_Ok _ _ _ _ _ (get_Ok _ "title" g (truthy_not_nullish _ Ht))).
  - unfold field. by rewrite (falsy_own_props g _ Ht), lookup_empty.
Qed.

(** X14: [_getNavigationBar] follows its hook, whatever the hook does.
    When [getDynamicTitle] throws, [_getNavigationBar] throws the same
    error and builds no bar.  When it returns, the result is one new
    object, which holds the properties the navigation options had before
    the call (none for a class without options), with the title the hook
    returned when that is truthy, and otherwise the title of the options
    as they are after the call.  The bar of a class whose hook only
    reads the store and returns is an instance of that. *)
Theorem navigationBar_title (cl : class) (hook : ST (list object) value)
    (jsonPayload : value) (h : list object) :
  match hook h with
  | (Throw e, h1) => _getNavigationBar_with cl hook h = (Throw e, h1)
  | (Ok dynamic, h1) =>
      ∃ props,
        _getNavigationBar_with cl hook h
        = (Ok (VRef (length h1)), h1 ++ [OObject props])
        ∧ props !! "title"
          = Some (if truthy dynamic then dynamic
                  else field h1 (navigationOptions cl) "title")
        ∧ ∀ key, key ≠ "title" →
                 props !! key = own_props h (navigationOptions cl) !! key
  end
  ∧ _getNavigationBar cl jsonPayload
    = _getNavigationBar_with cl (reading (λ g, getDynamicTitle cl g jsonPayload)).
Proof.
  split; [|reflexivity].
  assert (Hprops : reading (λ g, own_props g (navigationOptions cl)) h
                   = (Ok (own_props h (navigationOptions cl)), h)) by done.
  unfold _getNavigationBar_with. rewrite (bind_Ok _ _ _ _ _ Hprops).
  destruct (hook h) as [[dynamic|e] h1] eqn:Hhook;
    [|by rewrite (bind_Throw _ _ _ _ _ Hhook)].
  rewrite (bind_Ok _ _ _ _ _ Hhook).
  exists (<["title" := if truthy dynamic then dynamic
                       else field h1 (navigationOptions cl) "title"]>
            (own_props h (navigationOptions cl))).
  split; [|split].
  - destruct (truthy dynamic); [reflexivity|].
    destruct (truthy (navigationOptions cl)) eqn:Ht.
    + by rewrite (bind_Ok _ _ _ _ _ (get_Ok _ "title" h1 (truthy_not_nullish _ Ht))).
    + unfold field. by rewrite (falsy_own_props h1 _ Ht), lookup_empty.
  - by rewrite lookup_insert_eq.
  - intros key Hkey. by rewrite lookup_insert_ne.
Qed.

Lemma localizes_leftButton_later `{Runtime} routeName h g y leftButton v :
  localizes_leftButton routeName h g leftButton v →
  localizes_leftButton routeName h (g ++ y) leftButton v.
Proof.
  unfold localizes_leftButton. destruct (truthy leftButton); [|done].
  intros (l & -> & Hl & Hcopy). exists l. split; [done|]. split; [done|].
  by apply lookup_app_l_Some.
Qed.

Lemma localizes_buttons_later `{Runtime} routeName h g y buttons v :
  localizes_buttons routeName h g buttons v →
  localizes_buttons routeName h (g ++ y) buttons v.
Proof.
  unfold localizes_buttons. destruct (truthy buttons); [|done].
  intros (l & elems & l' & elems' & -> & Hl & -> & Hl' & Harr & Hall).
  exists l, elems, l', elems'. split; [done|]. split; [done|]. split; [done|].
  split; [done|]. split; [by apply lookup_app_l_Some|].
  eapply Forall2_impl; [exact Hall|]. intros button button' (lb & -> & Hlb & Hcopy).
  exists lb. split; [done|]. split; [done|]. by apply lookup_app_l_Some.
Qed.

Lemma is_class_bar_later `{Runtime} cl title h g y sent :
  closed_value g sent →
  is_class_bar cl title h g sent → is_class_bar cl title h (g ++ y) sent.
Proof.
  intros Hsent (Ht & Hov & HL & HB & Hrest). unfold is_class_bar.
  rewrite !field_frame, own_props_frame by done.
  split; [done|]. split; [done|].
  split; [by apply localizes_leftButton_later|].
  split; [by apply localizes_buttons_later | done].
Qed.

(** The bar of a class, once built at the end of the store, localized
    and stripped of [overlay]. *)
Lemma class_bar_localized `{Runtime} cl title h x :
  closed h → closed_value h (navigationOptions cl) →
  bar_ok h (navigationOptions cl) →
  ∃ sent g',
    (localized ← _localizeNavigationBar (route cl) (VRef (length (h ++ x)));
     without "overlay" localized)
      ((h ++ x) ++ [OObject (<["title" := title]> (own_props h (navigationOptions cl)))])
    = (Ok (field h (navigationOptions cl) "overlay", sent), g')
    ∧ (∃ fresh, g' = (h ++ x) ++ fresh)
    ∧ closed_value g' sent
    ∧ is_class_bar cl title h g' sent.
Proof.
  intros Hh Hopts [HokL HokB].
  set (opts := navigationOptions cl) in *.
  set (nb := OObject (<["title" := title]> (own_props h opts))).
  assert (Hown : own_props ((h ++ x) ++ [nb]) (VRef (length (h ++ x)))
                 = <["title" := title]> (own_props h opts)).
  { cbn [own_props]. rewrite lookup_app_r by done. by rewrite Nat.sub_diag. }
  assert (HfL : field ((h ++ x) ++ [nb]) (VRef (length (h ++ x))) "leftButton"
                = field h opts "leftButton").
  { unfold field. rewrite Hown. by rewrite lookup_insert_ne. }
  assert (HfB : field ((h ++ x) ++ [nb]) (VRef (length (h ++ x))) "buttons"
                = field h opts "buttons").
  { unfold field. rewrite Hown. by rewrite lookup_insert_ne. }
  destruct (localize_run (route cl) h (x ++ [nb]) (VRef (length (h ++ x))))
    as (fresh & L' & B' & Hrun & HL & HB); try done.
  { cbn. rewrite !length_app. cbn. lia. }
  { rewrite app_assoc, HfL. by apply field_closed. }
  { rewrite app_assoc, HfB. by apply field_closed. }
  { by rewrite app_assoc, HfL. }
  { by rewrite app_assoc, HfB. }
  rewrite !app_assoc in Hrun, HL, HB. rewrite Hown in Hrun. rewrite HfL in HL.
  rewrite HfB in HB.
  set (q := <["buttons" := B']> (<["leftButton" := L']>
               (<["title" := title]> (own_props h opts)))) in *.
  set (g := ((h ++ x) ++ [nb]) ++ fresh) in *.
  exists (VRef (length (g ++ [OObject q]))),
    ((g ++ [OObject q]) ++ [OObject (delete "overlay" q)]).
  assert (Hsent : own_props ((g ++ [OObject q]) ++ [OObject (delete "overlay" q)])
                    (VRef (length (g ++ [OObject q]))) = delete "overlay" q).
  { cbn [own_props]. rewrite lookup_app_r by done. by rewrite Nat.sub_diag. }
  split; [|split; [|split]].
  - rewrite (bind_Ok _ _ _ _ _ Hrun). rewrite without_new_run. do 2 f_equal.
    unfold q, field. by rewrite !lookup_insert_ne.
  - exists ([nb] ++ fresh ++ [OObject q; OObject (delete "overlay" q)]).
    unfold g. rewrite <- !app_assoc. done.
  - cbn. rewrite (length_app (g ++ [OObject q])). cbn. lia.
  - unfold is_class_bar, field. rewrite Hsent. unfold q.
    split; [|split; [|split; [|split]]].
    + rewrite lookup_delete_ne by done. rewrite !lookup_insert_ne by done.
      by rewrite lookup_insert_eq.
    + apply lookup_delete_eq.
    + rewrite lookup_delete_ne by done. rewrite lookup_insert_ne by done.
      rewrite lookup_insert_eq. cbn [default].
      rewrite <- app_assoc. by apply localizes_leftButton_later.
    + rewrite lookup_delete_ne by done. rewrite lookup_insert_eq. cbn [default].
      rewrite <- app_assoc. by apply localizes_buttons_later.
    + intros key Hk1 Hk2 Hk3 Hk4. rewrite lookup_delete_ne by done.
      by rewrite !lookup_insert_ne.
Qed.

(** X15: [resetNavigationBar] sends one update: its path is the route of
    the class, its bar the bar of the class for no payload, so titled by
    [getDynamicTitle] or else by the navigation options, localized for
    the route and without [overlay].  It only allocates, and keeps the
    classes, the instances and the listeners. *)
Theorem resetNavigationBar_sends `{Runtime} (w : world) (this : nat) (i : instance)
    (cl : class) :
  instances w !! this = Some i →
  classes w !! this_constructor i = Some cl →
  closed (heap w) → closed_value (heap w) (navigationOptions cl) →
  bar_ok (heap w) (navigationOptions cl) →
  ∃ sent w',
    resetNavigationBar this w = (Ok tt, w')
    ∧ requests w' = requests w ++ [Update (route cl) sent]
    ∧ is_class_bar cl (class_title cl (heap w) VUndefined) (heap w) (heap w') sent
    ∧ (∃ fresh, heap w' = heap w ++ fresh)
    ∧ classes w' = classes w ∧ instances w' = instances w
    ∧ listeners w' = listeners w.
Proof.
  intros Hi Hc Hh Hopts Hok.
  destruct (class_bar_localized cl (class_title cl (heap w) VUndefined) (heap w) []
              Hh Hopts Hok) as (sent & g' & Hrun & [fresh Hg'] & _ & Hbar).
  rewrite !app_nil_r in Hrun, Hg'.
  unfold resetNavigationBar. receiver Hi Hc.
  rewrite (bind_Ok _ _ _ _ _
             (on_heap_Ok _ _ _ _ (_getNavigationBar_title cl VUndefined (heap w)))).
  fold (class_title cl (heap w) VUndefined).
  set (w1 := with_heap _ w).
  unfold updateNavigationBar.
  assert (Hi1 : instances w1 !! this = Some i) by done.
  assert (Hc1 : classes w1 !! this_constructor i = Some cl) by done.
  receiver Hi1 Hc1.
  rewrite (bind_Ok _ _ _ _ _ (on_heap_Ok _ w1 _ _ Hrun)).
  eexists _, _. split; [reflexivity|]. split; [done|]. split; [exact Hbar|].
  split; [by exists fresh | done].
Qed.

Lemma resetNavigationBar_sends_witness :
  instances sample_world !! 0 = Some (Instance "Checkout" None VUndefined)
  ∧ classes sample_world !! "Checkout" = Some Checkout
  ∧ closed (heap sample_world)
  ∧ @bar_ok sample_runtime (heap sample_world) (navigationOptions Checkout)
  ∧ ∃ sent w',
      @resetNavigationBar sample_runtime 0 sample_world = (Ok tt, w')
      ∧ requests w' = requests sample_world ++ [Update (route Checkout) sent]
      ∧ @is_class_bar sample_runtime Checkout
          (class_title Checkout (heap sample_world) VUndefined)
          (heap sample_world) (heap w') sent
      ∧ (∃ fresh, heap w' = heap sample_world ++ fresh)
      ∧ classes w' = classes sample_world ∧ instances w' = instances sample_world
      ∧ listeners w' = listeners sample_world.
Proof.
  split; [reflexivity|]. split; [reflexivity|]. split; [exact sample_heap_closed|].
  split; [exact sample_bar_ok|].
  apply (@resetNavigationBar_sends sample_runtime sample_world 0
           (Instance "Checkout" None VUndefined) Checkout);
    [reflexivity | reflexivity | exact sample_heap_closed | simpl; lia
    | exact sample_bar_ok].
Defined.

(** ** Navigating to a registered screen *)

Lemma bind_assoc_run {S A B C} (m : ST S A) (f : A → ST S B) (k : B → ST S C) s :
  ((m ≫= f) ≫= k) s = (m ≫= (λ a, f a ≫= k)) s.
Proof. unfold mbind, ST_bind. by destruct (m s) as [[a|e] s']. Qed.

(** X16: [navigateInternal] of a registered screen name builds the bar
    of the class registered under the name, for the payload, localized
    for the route of that class (not of the calling screen) and without
    [overlay]; an absent payload is replaced by a new empty object.  When
    the payload serializes, one navigate request carries the route of the
    class, the [overlay] of its options, the bar and the text; when it
    does not, the error is thrown and no request is sent. *)
Theorem navigateInternal_sends `{Runtime} (w : world) (this : nat) (i : instance)
    (cl : class) (screens : gmap string string) (name target : string)
    (nav : class) (jsonPayload : value) :
  instances w !! this = Some i →
  classes w !! this_constructor i = Some cl →
  appNavigator cl = AppNavigator (Some screens) →
  name ≠ "" → screens !! name = Some target →
  classes w !! target = Some nav →
  closed (heap w) → closed_value (heap w) (navigationOptions nav) →
  bar_ok (heap w) (navigationOptions nav) →
  ∃ bar h1 payload,
    is_class_bar nav (class_title nav (heap w) jsonPayload) (heap w) h1 bar
    ∧ (∃ fresh, h1 = heap w ++ fresh)
    ∧ (truthy jsonPayload = true → payload = jsonPayload)
    ∧ (truthy jsonPayload = false →
       ∃ l, payload = VRef l ∧ heap w !! l = None ∧ h1 !! l = Some (OObject ∅))
    ∧ navigateInternal this (Some name) jsonPayload w
      = match JSON_stringify h1 payload with
        | Ok text =>
            (Ok tt,
             with_requests
               (requests w
                  ++ [Navigate (route nav)
                        (field (heap w) (navigationOptions nav) "overlay") bar text])
               (with_heap h1 w))
        | Throw e => (Throw e, with_heap h1 w)
        end.
Proof.
  intros Hi Hc Hnav Hname Hlook Htarget Hh Hopts Hok.
  destruct (class_bar_localized nav (class_title nav (heap w) jsonPayload) (heap w) []
              Hh Hopts Hok) as (sent & g' & Hrun & [fresh Hg'] & Hsent & Hbar).
  rewrite !app_nil_r in Hrun, Hg'.
  assert (Hlocal : (bar ← _getLocalizedNavigationBar nav jsonPayload;
                    without "overlay" bar) (heap w)
                   = (Ok (field (heap w) (navigationOptions nav) "overlay", sent), g')).
  { unfold _getLocalizedNavigationBar. rewrite bind_assoc_run.
    rewrite (bind_Ok _ _ _ _ _ (_getNavigationBar_title nav jsonPayload (heap w))).
    exact Hrun. }
  assert (Hv : validated (appNavigator cl) (Some name) = Ok target)
    by (rewrite Hnav; by apply validation_accepts_helper).
  set (h1 := if truthy jsonPayload then g' else g' ++ [OObject ∅]).
  set (payload := if truthy jsonPayload then jsonPayload else VRef (length g')).
  exists sent, h1, payload.
  split; [|split; [|split; [|split]]].
  - unfold h1. destruct (truthy jsonPayload); [done|]. by apply is_class_bar_later.
  - unfold h1. rewrite Hg'. destruct (truthy jsonPayload); [by exists fresh|].
    exists (fresh ++ [OObject ∅]). by rewrite app_assoc.
  - intros Ht. unfold payload. by rewrite Ht.
  - intros Ht. unfold payload, h1. rewrite Ht. exists (length g').
    split; [done|]. split.
    + apply lookup_ge_None_2. rewrite Hg', length_app. lia.
    + by apply list_lookup_middle.
  - unfold navigateInternal. receiver Hi Hc. unfold of_result. rewrite Hv.
    unfold mbind at 1, ST_bind at 1. cbn beta iota.
    rewrite (bind_Ok _ _ _ _ _ (the_class_Ok _ _ _ Htarget)).
    rewrite (bind_Ok _ _ _ _ _ (on_heap_Ok _ _ _ _ Hlocal)).
    unfold h1, payload. unfold mbind, ST_bind, on_heap, send, new, mret, ST_ret.
    unfold with_requests, with_heap.
    cbn [heap classes instances listeners handles requests console presses].
    destruct (truthy jsonPayload);
      cbn [heap classes instances listeners handles requests console presses].
    + by destruct (JSON_stringify g' jsonPayload).
    + by destruct (JSON_stringify (g' ++ [OObject ∅]) (VRef (length g'))).
Qed.

Lemma navigateInternal_sends_witness :
  instances (sample_world_with sample_navigator) !! 3
  = Some (Instance "Main" None VUndefined)
  ∧ classes (sample_world_with sample_navigator) !! "Main"
    = Some (with_appNavigator sample_navigator Component)
  ∧ sample_screens !! "Cart" = Some "Checkout"
  ∧ classes (sample_world_with sample_navigator) !! "Checkout" = Some Checkout
  ∧ closed (heap (sample_world_with sample_navigator))
  ∧ @bar_ok sample_runtime (heap (sample_world_with sample_navigator))
      (navigationOptions Checkout)
  ∧ ∃ bar h1 payload,
      @is_class_bar sample_runtime Checkout
        (class_title Checkout (heap (sample_world_with sample_navigator)) VUndefined)
        (heap (sample_world_with sample_navigator)) h1 bar
      ∧ (∃ fresh, h1 = heap (sample_world_with sample_navigator) ++ fresh)
      ∧ (truthy VUndefined = true → payload = VUndefined)
      ∧ (truthy VUndefined = false →
         ∃ l, payload = VRef l
              ∧ heap (sample_world_with sample_navigator) !! l = None
              ∧ h1 !! l = Some (OObject ∅))
      ∧ @navigateInternal sample_runtime 3 (Some "Cart") VUndefined
          (sample_world_with sample_navigator)
        = match @JSON_stringify sample_runtime h1 payload with
          | Ok text =>
              (Ok tt,
               with_requests
                 (requests (sample_world_with sample_navigator)
                    ++ [Navigate (route Checkout)
                          (field (heap (sample_world_with sample_navigator))
                             (navigationOptions Checkout) "overlay") bar text])
                 (with_heap h1 (sample_world_with sample_navigator)))
          | Throw e => (Throw e, with_heap h1 (sample_world_with sample_navigator))
          end.
Proof.
  split; [reflexivity|]. split; [reflexivity|]. split; [reflexivity|].
  split; [reflexivity|]. split; [exact sample_heap_closed|].
  split; [exact sample_bar_ok|].
  apply (@navigateInternal_sends sample_runtime (sample_world_with sample_navigator) 3
           (Instance "Main" None VUndefined)
           (with_appNavigator sample_navigator Component) sample_screens
           "Cart" "Checkout" Checkout VUndefined);
    [reflexivity | reflexivity | reflexivity | discriminate | reflexivity | reflexivity
    | exact sample_heap_closed | simpl; lia | exact sample_bar_ok].
Defined.

(** ** One request per call that returns *)

Lemma keeps_requests_still {A} (m : ST world A) :
  (∀ w, (m w).2 = w) → keeps_requests m.
Proof. intros Hm w. by rewrite Hm. Qed.

Lemma keeps_requests_the_instance this : keeps_requests (the_instance this).
Proof.
  apply keeps_requests_still. intros w. unfold the_instance.
  by destruct (instances w !! this).
Qed.

Lemma keeps_requests_the_class c : keeps_requests (the_class c).
Proof.
  apply keeps_requests_still. intros w. unfold the_class.
  by destruct (classes w !! c).
Qed.

Lemma keeps_requests_on_heap {A} (m : ST (list object) A) : keeps_requests (on_heap m).
Proof. intros w. unfold on_heap. by destruct (m (heap w)). Qed.

Lemma keeps_requests_of_result {A} (r : result A) : keeps_requests (of_result r).
Proof. by intros w. Qed.

Lemma sends_iff_returns_send r : sends_iff_returns (send r).
Proof. intros w. by exists r. Qed.

Lemma sends_iff_returns_bind {A B} (m : ST world A) (f : A → ST world B) :
  keeps_requests m → (∀ a, sends_iff_returns (f a)) → sends_iff_returns (m ≫= f).
Proof.
  intros Hm Hf w. specialize (Hm w). unfold mbind, ST_bind.
  destruct (m w) as [[a|e] w1]; cbn [snd] in Hm; [|done].
  specialize (Hf a w1). by rewrite Hm in Hf.
Qed.

Lemma sends_iff_returns_updateNavigationBar `{Runtime} this bar :
  sends_iff_returns (updateNavigationBar this bar).
Proof.
  unfold updateNavigationBar.
  apply sends_iff_returns_bind; [apply keeps_requests_the_instance|]. intros i.
  apply sends_iff_returns_bind; [apply keeps_requests_the_class|]. intros cl.
  apply sends_iff_returns_bind; [apply keeps_requests_on_heap|].
  intros [overlay bar']. apply sends_iff_returns_send.
Qed.

(** X17: each method that calls the host ([updateNavigationBar],
    [resetNavigationBar], [navigate], [navigateInternal], [backTo],
    [back], [finish]) sends exactly one request when it returns, and none
    when it throws, whatever it throws. *)
Theorem one_request_iff_returns `{Runtime} (this : nat) (bar routeObj payload : value)
    (screenName : option string) :
  sends_iff_returns (updateNavigationBar this bar)
  ∧ sends_iff_returns (resetNavigationBar this)
  ∧ sends_iff_returns (navigate this routeObj)
  ∧ sends_iff_returns (navigateInternal this screenName payload)
  ∧ sends_iff_returns (backTo this screenName)
  ∧ sends_iff_returns (back this)
  ∧ sends_iff_returns (finish this payload).
Proof.
  split; [apply sends_iff_returns_updateNavigationBar|].
  split.
  { unfold resetNavigationBar.
    apply sends_iff_returns_bind; [apply keeps_requests_the_instance|]. intros i.
    apply sends_iff_returns_bind; [apply keeps_requests_the_class|]. intros cl.
    apply sends_iff_returns_bind; [apply keeps_requests_on_heap|]. intros b.
    apply sends_iff_returns_updateNavigationBar. }
  split; [apply sends_iff_returns_send|].
  split.
  { unfold navigateInternal.
    apply sends_iff_returns_bind; [apply keeps_requests_the_instance|]. intros i.
    apply sends_iff_returns_bind; [apply keeps_requests_the_class|]. intros cl.
    apply sends_iff_returns_bind; [apply keeps_requests_of_result|]. intros target.
    apply sends_iff_returns_bind; [apply keeps_requests_the_class|]. intros nav.
    apply sends_iff_returns_bind; [apply keeps_requests_on_heap|].
    intros [overlay navigationBar].
    apply sends_iff_returns_bind; [apply keeps_requests_on_heap|]. intros p.
    apply sends_iff_returns_bind; [apply keeps_requests_on_heap|]. intros text.
    apply sends_iff_returns_send. }
  split.
  { unfold backTo.
    apply sends_iff_returns_bind; [apply keeps_requests_the_instance|]. intros i.
    apply sends_iff_returns_bind; [apply keeps_requests_the_class|]. intros cl.
    apply sends_iff_returns_bind; [apply keeps_requests_of_result|]. intros target.
    apply sends_iff_returns_bind; [apply keeps_requests_the_class|]. intros nav.
    apply sends_iff_returns_send. }
  split; [apply sends_iff_returns_send|].
  unfold finish.
  apply sends_iff_returns_bind; [apply keeps_requests_on_heap|]. intros p.
  apply sends_iff_returns_bind; [apply keeps_requests_on_heap|]. intros text.
  apply sends_iff_returns_send.
Qed.

(** ** Mounting and unmounting *)

Lemma keeps_log_bind {A B} (m : ST world A) (f : A → ST world B) :
  keeps_log m → (∀ a, keeps_log (f a)) → keeps_log (m ≫= f).
Proof.
  intros Hm Hf w. specialize (Hm w). unfold mbind, ST_bind.
  destruct (m w) as [[a|e] w1]; [|done].
  specialize (Hf a w1). cbn [snd] in Hm.
  destruct Hm as (<- & <-). exact Hf.
Qed.

Lemma keeps_log_the_instance this : keeps_log (the_instance this).
Proof. intros w. unfold the_instance. by destruct (instances w !! this). Qed.

Lemma keeps_log_the_class c : keeps_log (the_class c).
Proof. intros w. unfold the_class. by destruct (classes w !! c). Qed.

Lemma keeps_log_on_heap {A} (m : ST (list object) A) : keeps_log (on_heap m).
Proof. intros w. unfold on_heap. by destruct (m (heap w)). Qed.

Lemma keeps_log_resetNavigationBar `{Runtime} this : keeps_log (resetNavigationBar this).
Proof.
  unfold resetNavigationBar, updateNavigationBar.
  apply keeps_log_bind; [apply keeps_log_the_instance|]. intros i.
  apply keeps_log_bind; [apply keeps_log_the_class|]. intros cl.
  apply keeps_log_bind; [apply keeps_log_on_heap|]. intros bar.
  apply keeps_log_bind; [apply keeps_log_the_instance|]. intros i'.
  apply keeps_log_bind; [apply keeps_log_the_class|]. intros cl'.
  apply keeps_log_bind; [apply keeps_log_on_heap|]. by intros [overlay bar'] w.
Qed.

Lemma constructor_run `{Runtime} w c cl jsonPayload parsed x :
  classes w !! c = Some cl →
  parsed_props jsonPayload (heap w) = (Ok parsed, heap w ++ x) →
  (autoReset cl = true →
   closed (heap w) ∧ closed_value (heap w) (navigationOptions cl)
   ∧ bar_ok (heap w) (navigationOptions cl)) →
  ∃ w',
    constructor c jsonPayload w = (Ok (length (instances w)), w')
    ∧ listeners w' = listeners w ++ [(handles w, length (instances w))]
    ∧ instances w' = instances w ++ [Instance c (Some (handles w)) parsed]
    ∧ classes w' = classes w ∧ handles w' = S (handles w)
    ∧ presses w' = presses w ∧ console w' = console w.
Proof.
  intros Hc Hparsed Hreset.
  set (this := length (instances w)).
  set (created := Instance c (Some (handles w)) parsed).
  unfold constructor. rewrite (bind_Ok _ _ _ _ _ (the_class_Ok _ _ _ Hc)).
  unfold mbind at 1, ST_bind at 1. cbn beta iota. fold this.
  set (w1 := with_instances _ w).
  assert (Hparsed1 : parsed_props jsonPayload (heap w1) = (Ok parsed, heap w ++ x))
    by done.
  rewrite (bind_Ok _ _ _ _ _ (on_heap_Ok _ _ _ _ Hparsed1)).
  set (w2 := with_heap _ w1).
  assert (Hi2 : instances w2 !! this = Some (Instance c None VUndefined))
    by apply lookup_last.
  rewrite (bind_Ok _ _ _ _ _ (the_instance_Ok _ _ _ Hi2)).
  unfold mbind at 1, ST_bind at 1, put_instance at 1. cbn beta iota.
  cbn [this_constructor this_headerListener].
  set (w3 := with_instances _ w2).
  assert (Hi3 : instances w3 !! this = Some (Instance c None parsed)).
  { subst w3 w2 w1. cbn [instances with_instances with_heap].
    subst this. rewrite insert_last. apply lookup_last. }
  rewrite (bind_Ok _ _ _ _ _ (the_instance_Ok _ _ _ Hi3)).
  cbn [this_constructor this_headerListener this_jsonProps].
  unfold mbind at 1, ST_bind at 1. unfold mbind at 1, ST_bind at 1.
  unfold addOnNavButtonClickEventListener at 1, put_instance at 1. cbn beta iota.
  set (w5 := with_instances _ _).
  assert (Hi5 : instances w5 = instances w ++ [created]).
  { subst w5 w3 w2 w1. cbn [instances with_instances with_heap with_listeners].
    subst this. by rewrite !insert_last. }
  assert (Hl5 : listeners w5 = listeners w ++ [(handles w, this)]) by done.
  assert (Hc5 : classes w5 = classes w) by done.
  assert (Hn5 : handles w5 = S (handles w)) by done.
  assert (Hp5 : presses w5 = presses w) by done.
  assert (Ho5 : console w5 = console w) by done.
  destruct (autoReset cl).
  - destruct (Hreset eq_refl) as (Hh & Hopts & Hok).
    destruct (keeps_subscriptions_resetNavigationBar this w5) as (Hck & Hik & Hlk & Hnk).
    assert (HresetOk : (resetNavigationBar this w5).1 = Ok tt).
    { eapply (resetNavigationBar_Ok w5 this created cl (heap w) x); try done.
      rewrite Hi5. apply lookup_last. }
    destruct (keeps_log_resetNavigationBar this w5) as [Hpk Hok'].
    unfold mbind, ST_bind, mret, ST_ret.
    destruct (resetNavigationBar this w5) as [r w6]. cbn [fst snd] in *. subst r.
    exists w6. repeat split; congruence.
  - exists w5. unfold mbind, ST_bind, mret, ST_ret. by repeat split.
Qed.

Lemma filter_keeps_all (ls : list (handle * nat)) (hd : handle) :
  Forall (λ l : handle * nat, l.1 < hd) ls →
  filter (λ l : handle * nat, l.1 ≠ hd) ls = ls.
Proof.
  induction 1 as [|l ls Hl _ IH]; [done|].
  rewrite filter_cons_True by lia. by rewrite IH.
Qed.

Lemma filter_fresh_handle (ls : list (handle * nat)) (hd : handle) (this : nat) :
  Forall (λ l : handle * nat, l.1 < hd) ls →
  filter (λ l : handle * nat, l.1 ≠ hd) (ls ++ [(hd, this)]) = ls.
Proof.
  intros Hls. rewrite filter_app, (filter_keeps_all _ _ Hls).
  rewrite filter_cons_False by (cbn; tauto).
  by rewrite filter_nil, app_nil_r.
Qed.

(** X18: mounting and then unmounting an instance is a round trip on the
    subscriptions.  When the next handle of the event stream is above the
    handles in use, the constructor subscribes the new instance under
    that handle, which stays above all handles in use, calls no handler
    and writes no warning; [componentWillUnmount] of the new instance
    gives back exactly the listeners there were before the construction,
    and a second [componentWillUnmount] changes nothing. *)
Theorem mount_unmount_round_trip `{Runtime} (w : world) (c : string) (cl : class)
    (jsonPayload : option string) (parsed : value) (x : list object) :
  classes w !! c = Some cl →
  parsed_props jsonPayload (heap w) = (Ok parsed, heap w ++ x) →
  (autoReset cl = true →
   closed (heap w) ∧ closed_value (heap w) (navigationOptions cl)
   ∧ bar_ok (heap w) (navigationOptions cl)) →
  handles_fresh w →
  ∃ w' w'',
    constructor c jsonPayload w = (Ok (length (instances w)), w')
    ∧ handles_fresh w'
    ∧ componentWillUnmount (length (instances w)) w' = (Ok tt, w'')
    ∧ listeners w'' = listeners w
    ∧ handles_fresh w''
    ∧ instances w'' = instances w' ∧ classes w'' = classes w
    ∧ presses w'' = presses w ∧ console w'' = console w
    ∧ componentWillUnmount (length (instances w)) w'' = (Ok tt, w'').
Proof.
  intros Hc Hparsed Hreset Hfresh.
  destruct (constructor_run w c cl jsonPayload parsed x Hc Hparsed Hreset)
    as (w' & Hrun & Hl & Hi & Hcl & Hn & Hp & Ho).
  assert (Hthis : instances w' !! length (instances w)
                  = Some (Instance c (Some (handles w)) parsed))
    by (rewrite Hi; apply lookup_last).
  assert (Hback : filter (λ l : handle * nat, l.1 ≠ handles w) (listeners w')
                  = listeners w)
    by (rewrite Hl; by apply filter_fresh_handle).
  exists w'. eexists. split; [exact Hrun|].
  split.
  { unfold handles_fresh. rewrite Hl, Hn. apply Forall_app. split.
    - eapply Forall_impl; [exact Hfresh|]. cbn. intros l Hlt. lia.
    - apply Forall_singleton. cbn. lia. }
  split.
  { unfold componentWillUnmount.
    rewrite (bind_Ok _ _ _ _ _ (the_instance_Ok _ _ _ Hthis)).
    cbn [this_headerListener]. reflexivity. }
  cbn [listeners instances classes presses console handles with_listeners].
  split; [exact Hback|].
  split.
  { unfold handles_fresh. cbn [listeners handles with_listeners].
    rewrite Hback, Hn. eapply Forall_impl; [exact Hfresh|]. cbn. intros l Hlt. lia. }
  split; [done|]. split; [done|]. split; [done|]. split; [done|].
  unfold componentWillUnmount.
  set (w'' := with_listeners _ _ w').
  assert (Hthis' : instances w'' !! length (instances w)
                   = Some (Instance c (Some (handles w)) parsed)) by exact Hthis.
  rewrite (bind_Ok _ _ _ _ _ (the_instance_Ok _ _ _ Hthis')).
  cbn [this_headerListener]. unfold removeOnNavButtonClickEventListener.
  f_equal. subst w''. unfold with_listeners.
  cbn [heap classes instances listeners handles requests console presses].
  rewrite Hback. f_equal. by apply filter_keeps_all.
Qed.

Lemma mount_unmount_round_trip_witness :
  classes sample_world !! "Main" = Some Component
  ∧ @parsed_props sample_runtime None (heap sample_world)
    = (Ok (VRef 6), heap sample_world ++ [OObject ∅])
  ∧ closed (heap sample_world)
  ∧ @bar_ok sample_runtime (heap sample_world) (navigationOptions Component)
  ∧ handles_fresh sample_world
  ∧ ∃ w' w'',
      @constructor sample_runtime "Main" None sample_world
      = (Ok (length (instances sample_world)), w')
      ∧ handles_fresh w'
      ∧ componentWillUnmount (length (instances sample_world)) w' = (Ok tt, w'')
      ∧ listeners w'' = listeners sample_world
      ∧ handles_fresh w''
      ∧ instances w'' = instances w' ∧ classes w'' = classes sample_world
      ∧ presses w'' = presses sample_world ∧ console w'' = console sample_world
      ∧ componentWillUnmount (length (instances sample_world)) w'' = (Ok tt, w'').
Proof.
  assert (Hfresh : handles_fresh sample_world).
  { unfold handles_fresh. cbn. repeat constructor; cbn; lia. }
  split; [reflexivity|]. split; [reflexivity|]. split; [exact sample_heap_closed|].
  split; [exact sample_options_ok|]. split; [exact Hfresh|].
  apply (@mount_unmount_round_trip sample_runtime sample_world "Main" Component None
           (VRef 6) [OObject ∅]);
    [reflexivity | reflexivity | | exact Hfresh].
  intros _. split; [exact sample_heap_closed|]. split; [simpl; lia|].
  exact sample_options_ok.
Defined.

(** ** Registering the empty route *)

(** X19: only a route that is not empty locks the registration.
    [setRegisteredRoute ""] on a class without a route returns, writes
    no warning, and leaves the class open: the next [setRegisteredRoute r]
    sets the route [r], again with no warning. *)
Theorem empty_route_does_not_lock (w : world) (c : string) (cl : class) (r : string) :
  classes w !! c = Some cl → route cl = "" →
  ∃ w1 w2,
    setRegisteredRoute c "" w = (Ok tt, w1)
    ∧ getRegisteredRoute c w1 = (Ok "", w1)
    ∧ console w1 = console w
    ∧ setRegisteredRoute c r w1 = (Ok tt, w2)
    ∧ getRegisteredRoute c w2 = (Ok r, w2)
    ∧ console w2 = console w.
Proof.
  intros Hc Hr.
  set (w1 := with_classes (<[c := with_route "" cl]> (classes w)) w).
  set (w2 := with_classes (<[c := with_route r (with_route "" cl)]> (classes w1)) w1).
  assert (Hc1 : classes w1 !! c = Some (with_route "" cl))
    by (subst w1; cbn; apply lookup_insert_eq).
  assert (Hc2 : classes w2 !! c = Some (with_route r (with_route "" cl)))
    by (subst w2; cbn; apply lookup_insert_eq).
  exists w1, w2.
  split.
  { unfold setRegisteredRoute. rewrite (bind_Ok _ _ _ _ _ (the_class_Ok _ _ _ Hc)).
    by rewrite Hr. }
  split.
  { unfold getRegisteredRoute. by rewrite (bind_Ok _ _ _ _ _ (the_class_Ok _ _ _ Hc1)). }
  split; [done|].
  split.
  { unfold setRegisteredRoute. by rewrite (bind_Ok _ _ _ _ _ (the_class_Ok _ _ _ Hc1)). }
  split; [|done].
  unfold getRegisteredRoute. by rewrite (bind_Ok _ _ _ _ _ (the_class_Ok _ _ _ Hc2)).
Qed.

Lemma empty_route_does_not_lock_witness :
  classes sample_world !! "Main" = Some Component
  ∧ route Component = ""
  ∧ ∃ w1 w2,
      setRegisteredRoute "Main" "" sample_world = (Ok tt, w1)
      ∧ getRegisteredRoute "Main" w1 = (Ok "", w1)
      ∧ console w1 = console sample_world
      ∧ setRegisteredRoute "Main" "main" w1 = (Ok tt, w2)
      ∧ getRegisteredRoute "Main" w2 = (Ok "main", w2)
      ∧ console w2 = console sample_world.
Proof.
  split; [reflexivity|]. split; [reflexivity|].
  apply (empty_route_does_not_lock sample_world "Main" Component "main");
    reflexivity.
Defined.
